(** * Questionnaire segmentation parser (src/main.py)

    A shallow embedding of the line-oriented parser of [main.py]:
    [parse_mcq_section], [parse_true_false_section],
    [parse_short_answer_section], [parse_long_answer_section] and
    [parse_questionnaire], together with the fragment of Python's [str] and
    [re] modules they rely on.

    Modelling conventions.
    - A Python [str] is a list of characters; a character is an 8-bit code
      point (Latin-1), so the development covers texts over that alphabet.
    - [while] loops over the cursor [i] are recursive functions over a fuel
      counter that return [None] when the fuel runs out; the entry points
      supply the fuel and are proved to always return [Some].
    - The [print] diagnostics of [parse_questionnaire] produce no value and
      are left out. *)

From Stdlib Require Import String Ascii List Arith Bool Lia.
Import ListNotations.

Set Implicit Arguments.

(** ** Strings and characters *)

Definition str := list ascii.

(** A string literal of the source. *)
Definition lit (x : string) : str := list_ascii_of_string x.

Definition code (c : ascii) : nat := nat_of_ascii c.

Definition between (lo hi n : nat) : bool := (lo <=? n) && (n <=? hi).

(** [str.isspace] on one character, which is also what [\s] matches in a
    [str] pattern: TAB..CR, FS..US, SPACE, NEL and NBSP. *)
Definition is_space (c : ascii) : bool :=
  between 9 13 (code c) || between 28 32 (code c)
  || (code c =? 133) || (code c =? 160).

(** What [\d] matches: the decimal digits. *)
Definition is_digit (c : ascii) : bool := between 48 57 (code c).

Definition newline : ascii := ascii_of_nat 10.

Definition is_newline (c : ascii) : bool := code c =? 10.

(** Simple case mappings used by [re.IGNORECASE]. *)
Definition lower (c : ascii) : ascii :=
  let n := code c in
  if between 65 90 n || between 192 214 n || between 216 222 n
  then ascii_of_nat (n + 32) else c.

Definition upper (c : ascii) : ascii :=
  let n := code c in
  if between 97 122 n || between 224 246 n || between 248 254 n
  then ascii_of_nat (n - 32) else c.

(** [str.strip()] with no argument. *)
Fixpoint lstrip (s : str) : str :=
  match s with
  | [] => []
  | c :: s' => if is_space c then lstrip s' else s
  end.

Definition rstrip (s : str) : str := rev (lstrip (rev s)).

Definition strip (s : str) : str := rstrip (lstrip s).

(** [not line] for a string: the empty string is falsy. *)
Definition blank (s : str) : bool :=
  match s with [] => true | _ :: _ => false end.

(** ** The fragment of [re] used by the parser *)

Module Re.

(** One member of a bracketed set. *)
Inductive item :=
| IChar (c : ascii)
| IRange (lo hi : ascii)
| ISpace.

(** Patterns that consume exactly one character. *)
Inductive atom :=
| Lit (c : ascii)
| Dot
| Digit
| Space
| Set_ (l : list item).

Inductive regex :=
| Eps
| Atom (a : atom)
| Plus (a : atom)
| Cat (r1 r2 : regex)
| Alt (r1 r2 : regex)
| Group (n : nat) (r : regex).

Definition char_eq (ic : bool) (c x : ascii) : bool :=
  Ascii.eqb x c || (ic && Ascii.eqb (lower x) (lower c)).

Definition in_range (lo hi x : ascii) : bool :=
  between (code lo) (code hi) (code x).

Definition item_match (ic : bool) (it : item) (x : ascii) : bool :=
  match it with
  | IChar c => char_eq ic c x
  | IRange lo hi =>
      in_range lo hi x
      || (ic && (in_range lo hi (lower x) || in_range lo hi (upper x)))
  | ISpace => is_space x
  end.

(** [ic] is the [re.IGNORECASE] flag.  [Dot] excludes the line feed since
    [re.DOTALL] is never given. *)
Definition atom_match (ic : bool) (a : atom) (x : ascii) : bool :=
  match a with
  | Lit c => char_eq ic c x
  | Dot => negb (is_newline x)
  | Digit => is_digit x
  | Space => is_space x
  | Set_ l => existsb (fun it => item_match ic it x) l
  end.

Definition captures := list (nat * str).

Section Matcher.
Variable R : Type.
Variable ic : bool.

(** Greedy [a+] with backtracking: take as many characters as possible
    and give them back one at a time while the rest of the pattern,
    the continuation [k], fails. *)
Fixpoint plus_match (a : atom) (s : str) (k : str -> option R)
  : option R :=
  match s with
  | [] => None
  | c :: s' =>
      if atom_match ic a c then
        match plus_match a s' k with
        | Some r => Some r
        | None => k s'
        end
      else None
  end.

(** Backtracking matcher in continuation-passing style; alternatives are
    tried left to right, as [re] does. *)
Fixpoint run (r : regex) (s : str) (cs : captures)
         (k : str -> captures -> option R) : option R :=
  match r with
  | Eps => k s cs
  | Atom a =>
      match s with
      | [] => None
      | c :: s' => if atom_match ic a c then k s' cs else None
      end
  | Plus a => plus_match a s (fun s' => k s' cs)
  | Cat r1 r2 => run r1 s cs (fun s1 c1 => run r2 s1 c1 k)
  | Alt r1 r2 =>
      match run r1 s cs k with
      | Some x => Some x
      | None => run r2 s cs k
      end
  | Group n r1 =>
      run r1 s cs
          (fun s1 c1 => k s1 ((n, firstn (length s - length s1) s) :: c1))
  end.
End Matcher.

(** [re.match(pattern, s, flags)]: the pattern must match at position 0;
    the result carries the captured groups.  The leading [^] of the
    source patterns is vacuous under [re.match] and is not represented. *)
Definition match_ (ic : bool) (r : regex) (s : str) : option captures :=
  run ic r s [] (fun _ cs => Some cs).

(** [m.group(n)] for a group that took part in the match. *)
Fixpoint group (n : nat) (cs : captures) : str :=
  match cs with
  | [] => []
  | (m, v) :: cs' => if m =? n then v else group n cs'
  end.

(** A run of literal characters. *)
Fixpoint lits (s : str) : regex :=
  match s with
  | [] => Eps
  | c :: s' => Cat (Atom (Lit c)) (lits s')
  end.

(** [w1\s+w2\s+...]: words separated by [\s+]. *)
Fixpoint words (ws : list string) : regex :=
  match ws with
  | [] => Eps
  | [w] => lits (lit w)
  | w :: ws' => Cat (lits (lit w)) (Cat (Plus Space) (words ws'))
  end.

End Re.

Import Re.

(** ** The patterns of [main.py] *)

(** [Multiple\s+Choice], [True\s+or\s+False], [Short\s+Answer],
    [Long\s+Answer]. *)
Definition multiple_choice_re : regex := words ["Multiple"; "Choice"]%string.
Definition true_or_false_re : regex := words ["True"; "or"; "False"]%string.
Definition short_answer_re : regex := words ["Short"; "Answer"]%string.
Definition long_answer_re : regex := words ["Long"; "Answer"]%string.

(** [[\.)\s]+] *)
Definition delimiters : regex :=
  Plus (Set_ [IChar "."; IChar ")"; ISpace]).

(** [^(\d+)[\.)\s]+(.+)] *)
Definition question_re : regex :=
  Cat (Group 1 (Plus Digit)) (Cat delimiters (Group 2 (Plus Dot))).

(** [^([a-d1-4])[\.)\s]+(.+)] *)
Definition option_re : regex :=
  Cat (Group 1 (Atom (Set_ [IRange "a" "d"; IRange "1" "4"])))
      (Cat delimiters (Group 2 (Plus Dot))).

(** [re.match(p, line, re.IGNORECASE)] used as a condition. *)
Definition matches_ic (r : regex) (line : str) : bool :=
  match match_ true r line with Some _ => true | None => false end.

(** The two groups of a successful match. *)
Definition groups12 (m : option captures) : option (str * str) :=
  match m with
  | Some cs => Some (group 1 cs, group 2 cs)
  | None => None
  end.

Definition question_match (line : str) : option (str * str) :=
  groups12 (match_ false question_re line).

Definition option_match (line : str) : option (str * str) :=
  groups12 (match_ true option_re line).

(** The "different section" tests of the four section parsers. *)
Definition alt3 (a b c : regex) : regex := Group 1 (Alt a (Alt b c)).

(** [^(True\s+or\s+False|Short\s+Answer|Long\s+Answer)] *)
Definition mcq_terminators : regex :=
  alt3 true_or_false_re short_answer_re long_answer_re.

(** [^(Multiple\s+Choice|Short\s+Answer|Long\s+Answer)] *)
Definition true_false_terminators : regex :=
  alt3 multiple_choice_re short_answer_re long_answer_re.

(** [^(Multiple\s+Choice|True\s+or\s+False|Long\s+Answer)] *)
Definition short_answer_terminators : regex :=
  alt3 multiple_choice_re true_or_false_re long_answer_re.

(** [^(Multiple\s+Choice|True\s+or\s+False|Short\s+Answer)] *)
Definition long_answer_terminators : regex :=
  alt3 multiple_choice_re true_or_false_re short_answer_re.

(** ** Data model *)

(** The value of the ["type"] key of a question. *)
Inductive qtype := mcq | true_false | short_answer | long_answer.

Definition qtype_eqb (a b : qtype) : bool :=
  match a, b with
  | mcq, mcq | true_false, true_false
  | short_answer, short_answer | long_answer, long_answer => true
  | _, _ => false
  end.

(** An entry of [question["options"]]: keys ["letter"] and ["text"]. *)
Record option_entry := { letter : str; option_text : str }.

(** A question dictionary: keys ["number"], ["text"], ["type"],
    ["options"]. *)
Record question := {
  number : str;
  text : str;
  type : qtype;
  options : list option_entry
}.

(** [f"{a}. {b}"] *)
Definition dot_join (a b : str) : str := a ++ lit ". " ++ b.

(** ** Loops with fuel *)

Notation "'do' x <- m ; k" :=
  (match m with Some x => k | None => None end)
    (at level 10, x pattern, m at level 100, k at level 200).

(** [lines[i]], read only under the guard [i < len(lines)]. *)
Definition line_at (lines : list str) (i : nat) : str := nth i lines [].

(** Iterations left for a loop that runs while [i < len(lines)] and
    advances [i] at every turn, plus the final test. *)
Definition fuel_from (lines : list str) (i : nat) : nat :=
  S (length lines - i).

(** "First line after the header should be skipped if empty". *)
Definition skip_first_blank (lines : list str) (start_index : nat) : nat :=
  if (start_index <? length lines)
     && blank (strip (line_at lines start_index))
  then S start_index else start_index.

(** ** [parse_mcq_section] *)

(** The inner [while i < len(lines) and option_count < 4] loop. *)
Fixpoint option_loop (fuel : nat) (lines : list str) (i option_count : nat)
         (opts : list option_entry) : option (list option_entry * nat) :=
  match fuel with
  | 0 => None
  | S fuel' =>
      if (i <? length lines) && (option_count <? 4) then
        let option_line := strip (line_at lines i) in
        if blank option_line then
          option_loop fuel' lines (S i) option_count opts
        else
          match option_match option_line with
          | Some (opt_num, g2) =>
              let opt_text := strip g2 in
              option_loop fuel' lines (S i) (S option_count)
                (opts ++ [{| letter := opt_num;
                             option_text := dot_join opt_num opt_text |}])
          | None => Some (opts, i)
          end
      else Some (opts, i)
  end.

(** The outer [while i < len(lines)] loop. *)
Fixpoint mcq_loop (fuel : nat) (lines : list str) (i : nat)
         (questions : list question) : option (list question * nat) :=
  match fuel with
  | 0 => None
  | S fuel' =>
      if i <? length lines then
        let line := strip (line_at lines i) in
        if blank line then mcq_loop fuel' lines (S i) questions
        else if matches_ic mcq_terminators line then Some (questions, i)
        else
          match question_match line with
          | Some (q_num, g2) =>
              let q_text := strip g2 in
              do (opts, i') <-
                 option_loop (fuel_from lines (S i)) lines (S i) 0 [];
              mcq_loop fuel' lines i'
                (questions ++ [{| number := q_num;
                                  text := dot_join q_num q_text;
                                  type := mcq;
                                  options := opts |}])
          | None => mcq_loop fuel' lines (S i) questions
          end
      else Some (questions, i)
  end.

Definition parse_mcq_section (lines : list str) (start_index : nat)
  : option (list question * nat) :=
  let i := skip_first_blank lines start_index in
  mcq_loop (fuel_from lines i) lines i [].

(** ** The three sections without options

    [parse_true_false_section], [parse_short_answer_section] and
    [parse_long_answer_section] have the same body up to the terminator
    pattern and the ["type"] they write. *)
Fixpoint plain_loop (terminators : regex) (ty : qtype) (fuel : nat)
         (lines : list str) (i : nat) (questions : list question)
  : option (list question * nat) :=
  match fuel with
  | 0 => None
  | S fuel' =>
      if i <? length lines then
        let line := strip (line_at lines i) in
        if blank line then plain_loop terminators ty fuel' lines (S i) questions
        else if matches_ic terminators line then Some (questions, i)
        else
          match question_match line with
          | Some (q_num, g2) =>
              let q_text := strip g2 in
              plain_loop terminators ty fuel' lines (S i)
                (questions ++ [{| number := q_num;
                                  text := dot_join q_num q_text;
                                  type := ty;
                                  options := [] |}])
          | None => plain_loop terminators ty fuel' lines (S i) questions
          end
      else Some (questions, i)
  end.

Definition plain_section (terminators : regex) (ty : qtype)
           (lines : list str) (start_index : nat)
  : option (list question * nat) :=
  let i := skip_first_blank lines start_index in
  plain_loop terminators ty (fuel_from lines i) lines i [].

Definition parse_true_false_section :=
  plain_section true_false_terminators true_false.

Definition parse_short_answer_section :=
  plain_section short_answer_terminators short_answer.

Definition parse_long_answer_section :=
  plain_section long_answer_terminators long_answer.

(** ** [parse_questionnaire] *)

(** [re.sub(r'\n+', '\n', text)]: every maximal run of line feeds becomes
    one line feed.  [in_run] tells that the previous character was a line
    feed of the run being replaced. *)
Fixpoint collapse_from (in_run : bool) (s : str) : str :=
  match s with
  | [] => []
  | c :: s' =>
      if is_newline c then
        if in_run then collapse_from true s'
        else newline :: collapse_from true s'
      else c :: collapse_from false s'
  end.

Definition collapse_newlines (s : str) : str := collapse_from false s.

(** [text.split('\n')] *)
Fixpoint split_lines (s : str) : list str :=
  match s with
  | [] => [[]]
  | c :: s' =>
      if is_newline c then [] :: split_lines s'
      else
        match split_lines s' with
        | [] => [[c]]
        | l :: ls => (c :: l) :: ls
        end
  end.

(** The first two statements of [parse_questionnaire]. *)
Definition normalize_lines (text : str) : list str :=
  map strip (split_lines (collapse_newlines text)).

(** The main [while i < len(lines)] loop. *)
Fixpoint dispatch_loop (fuel : nat) (lines : list str) (i : nat)
         (all_questions : list question) : option (list question) :=
  match fuel with
  | 0 => None
  | S fuel' =>
      if i <? length lines then
        let line := strip (line_at lines i) in
        if blank line then dispatch_loop fuel' lines (S i) all_questions
        else if matches_ic multiple_choice_re line then
          do (mcq_questions, i') <- parse_mcq_section lines (i + 1);
          dispatch_loop fuel' lines i' (all_questions ++ mcq_questions)
        else if matches_ic true_or_false_re line then
          do (tf_questions, i') <- parse_true_false_section lines (i + 1);
          dispatch_loop fuel' lines i' (all_questions ++ tf_questions)
        else if matches_ic short_answer_re line then
          do (sa_questions, i') <- parse_short_answer_section lines (i + 1);
          dispatch_loop fuel' lines i' (all_questions ++ sa_questions)
        else if matches_ic long_answer_re line then
          do (la_questions, i') <- parse_long_answer_section lines (i + 1);
          dispatch_loop fuel' lines i' (all_questions ++ la_questions)
        else dispatch_loop fuel' lines (S i) all_questions
      else Some all_questions
  end.

(** The loop of [parse_questionnaire] over already normalized lines. *)
Definition parse_lines (lines : list str) : option (list question) :=
  dispatch_loop (fuel_from lines 0) lines 0 [].

Definition parse_questionnaire (text : str) : option (list question) :=
  parse_lines (normalize_lines text).

(** ** [extract_text_from_pdf]

    The two extraction back ends (PyMuPDF, pdfplumber) are external; each is
    represented by what it produced: [Some t] for the joined page text,
    [None] when it raised. *)
Definition EXTRACTION_FAILED : str :=
  lit "Text extraction failed for this document.".

Definition substantial (t : str) : bool :=
  negb (blank t) && (100 <? length t).

(** One extraction attempt: the stripped text if it is "substantial". *)
Definition attempt (method : option str) : option str :=
  match method with
  | Some t => let text := strip t in
              if substantial text then Some text else None
  | None => None
  end.

Definition extract_text_from_pdf (pymupdf pdfplumber : option str) : str :=
  match attempt pymupdf with
  | Some text => text
  | None =>
      match attempt pdfplumber with
      | Some text => text
      | None => EXTRACTION_FAILED
      end
  end.

(** ** Vocabulary of the statements *)

Definition all_chars : list ascii := map ascii_of_nat (seq 0 256).

(** The members of [[\.)\s]]. *)
Definition delimiter (c : ascii) : bool :=
  atom_match false (Set_ [IChar "."; IChar ")"; ISpace]) c.

(** The members of [[a-d1-4]] under [re.IGNORECASE]. *)
Definition option_label (c : ascii) : bool :=
  atom_match true (Set_ [IRange "a" "d"; IRange "1" "4"]) c.

(** The first letter of one of the four header phrases, in either case. *)
Definition header_initial (c : ascii) : bool :=
  char_eq true "M" c || char_eq true "T" c
  || char_eq true "S" c || char_eq true "L" c.

Definition is_some {A : Type} (o : option A) : bool :=
  match o with Some _ => true | None => false end.

Definition no_newline (c : ascii) : bool := negb (is_newline c).

(** A line made of a label, a run of delimiters and a body that extends to
    the end of the line (or to the first line feed inside it). *)
Definition labelled (line label delims body rest : str) : Prop :=
  line = label ++ delims ++ body ++ rest
  /\ delims <> [] /\ forallb delimiter delims = true
  /\ body <> [] /\ forallb no_newline body = true
  /\ match rest with [] => True | c :: _ => is_newline c = true end.

Definition starts_with (p : ascii -> bool) (line : str) : bool :=
  match line with [] => false | c :: _ => p c end.

(** The kind of section a stripped line opens, in the order of the
    [if]/[elif] chain of [parse_questionnaire]. *)
Definition header_kind (line : str) : option qtype :=
  if matches_ic multiple_choice_re line then Some mcq
  else if matches_ic true_or_false_re line then Some true_false
  else if matches_ic short_answer_re line then Some short_answer
  else if matches_ic long_answer_re line then Some long_answer
  else None.

(** The section parser the dispatcher calls for each kind, and the
    pattern on which that parser stops. *)
Definition section_parser (k : qtype)
  : list str -> nat -> option (list question * nat) :=
  match k with
  | mcq => parse_mcq_section
  | true_false => parse_true_false_section
  | short_answer => parse_short_answer_section
  | long_answer => parse_long_answer_section
  end.

Definition terminators (k : qtype) : regex :=
  match k with
  | mcq => mcq_terminators
  | true_false => true_false_terminators
  | short_answer => short_answer_terminators
  | long_answer => long_answer_terminators
  end.

(** The phrase that opens a section of each kind, and its first letter. *)
Definition phrase (k : qtype) : regex :=
  match k with
  | mcq => multiple_choice_re
  | true_false => true_or_false_re
  | short_answer => short_answer_re
  | long_answer => long_answer_re
  end.

Definition initial (k : qtype) : ascii :=
  match k with
  | mcq => "M"
  | true_false => "T"
  | short_answer => "S"
  | long_answer => "L"
  end%char.

(** The line an option entry was read from, between cursors [lo] and
    [hi]. *)
Definition from_option_line (lines : list str) (lo hi : nat)
           (o : option_entry) : Prop :=
  exists j g2, lo <= j < hi
    /\ option_match (strip (line_at lines j)) = Some (letter o, g2)
    /\ option_text o = dot_join (letter o) (strip g2).

(** A question read from a line between cursors [lo] and [hi] by the
    section parser of kind [ty]. *)
Definition emitted (lines : list str) (ty : qtype) (lo hi : nat)
           (q : question) : Prop :=
  exists j g2, lo <= j < hi
    /\ question_match (strip (line_at lines j)) = Some (number q, g2)
    /\ text q = dot_join (number q) (strip g2)
    /\ type q = ty
    /\ length (options q) <= 4
    /\ (ty <> mcq -> options q = [])
    /\ Forall (from_option_line lines (S j) hi) (options q).

(** The cursor a section parser returns is the end of input or a
    header of another kind. *)
Definition stopped_at (lines : list str) (k : qtype) (r : nat) : Prop :=
  r < length lines ->
  matches_ic (terminators k) (strip (line_at lines r)) = true.

(** One call of a section parser made by the dispatcher. *)
Record invocation := {
  inv_kind : qtype;
  inv_start : nat;
  inv_questions : list question;
  inv_resume : nat
}.

(** The section parser calls the dispatcher makes from cursor [i] on. *)
Inductive scan (lines : list str) : nat -> list invocation -> Prop :=
| scan_end i :
    length lines <= i -> scan lines i []
| scan_skip i tr :
    i < length lines ->
    header_kind (strip (line_at lines i)) = None ->
    scan lines (S i) tr ->
    scan lines i tr
| scan_section i k qs r tr :
    i < length lines ->
    header_kind (strip (line_at lines i)) = Some k ->
    section_parser k lines (i + 1) = Some (qs, r) ->
    scan lines r tr ->
    scan lines i ({| inv_kind := k; inv_start := i + 1;
                     inv_questions := qs; inv_resume := r |} :: tr).

Definition gathered (tr : list invocation) : list question :=
  concat (map inv_questions tr).

(** The calls are made on disjoint, increasing ranges of lines, and each
    returns questions of its own kind read inside its range. *)
Fixpoint ordered_from (i : nat) (tr : list invocation) : Prop :=
  match tr with
  | [] => True
  | s :: tr' =>
      i < inv_start s /\ inv_start s <= inv_resume s
      /\ ordered_from (inv_resume s) tr'
  end.

Definition in_range_questions (lines : list str) (s : invocation) : Prop :=
  Forall (emitted lines (inv_kind s) (inv_start s) (inv_resume s))
         (inv_questions s).

Definition shifted (A : Type) (res : option (A * nat)) : option (A * nat) :=
  match res with
  | Some (x, r) => Some (x, S r)
  | None => None
  end.

(** The lines after the first line feed of a text. *)
Definition following_lines (body : str) : list str :=
  map strip (split_lines (collapse_from true body)).

(** What collapsing the line feeds does to the lines of a text: an empty
    line is dropped unless it is the first or the last one. *)
Fixpoint drop_empty_but_last (ls : list str) : list str :=
  match ls with
  | [] => []
  | l :: rest =>
      match rest with
      | [] => [l]
      | _ :: _ =>
          if blank l then drop_empty_but_last rest
          else l :: drop_empty_but_last rest
      end
  end.

Definition retained_lines (ls : list str) : list str :=
  match ls with
  | [] => []
  | first :: rest => first :: drop_empty_but_last rest
  end.

Definition options_within_bounds (q : question) : Prop :=
  match type q with
  | mcq => 0 <= length (options q) <= 4
  | true_false | short_answer | long_answer => length (options q) = 0
  end.

Definition resumes_within
           (parser : list str -> nat -> option (list question * nat)) : Prop :=
  forall lines start,
  start <= length lines ->
  exists qs r, parser lines start = Some (qs, r)
               /\ start <= r <= length lines.



(** ** The parser as one pass over the lines

    A second description of [parse_questionnaire]'s loop, used to state
    what the nested loops compute: one left-to-right pass with a small
    state.  It is compared with the loops above, not substituted for
    them. *)

Definition make_option (opt_num g2 : str) : option_entry :=
  {| letter := opt_num; option_text := dot_join opt_num (strip g2) |}.

Definition make_question (q_num g2 : str) (ty : qtype)
           (opts : list option_entry) : question :=
  {| number := q_num; text := dot_join q_num (strip g2);
     type := ty; options := opts |}.

(** Where the cursor is: outside any section, in the section of kind [k],
    or behind an MCQ question whose options are being collected. *)
Inductive mode :=
| Top
| InSection (k : qtype)
| InOptions (q_num g2 : str) (opts : list option_entry).

Definition pass_state : Type := mode * list question.

(** A line seen by the loop of [parse_questionnaire]. *)
Definition top_step (acc : list question) (line : str) : pass_state :=
  let l := strip line in
  if blank l then (Top, acc)
  else match header_kind l with
       | Some k => (InSection k, acc)
       | None => (Top, acc)
       end.

(** A line seen by the outer loop of the section parser of kind [k]. *)
Definition section_step (k : qtype) (acc : list question) (line : str)
  : pass_state :=
  let l := strip line in
  if blank l then (InSection k, acc)
  else if matches_ic (terminators k) l then top_step acc line
  else match question_match l with
       | Some (q_num, g2) =>
           if qtype_eqb k mcq then (InOptions q_num g2 [], acc)
           else (InSection k, acc ++ [make_question q_num g2 k []])
       | None => (InSection k, acc)
       end.

(** A line seen by the option loop; the question is appended as soon as
    the loop is left. *)
Definition step (st : pass_state) (line : str) : pass_state :=
  match st with
  | (Top, acc) => top_step acc line
  | (InSection k, acc) => section_step k acc line
  | (InOptions q_num g2 opts, acc) =>
      let l := strip line in
      if blank l then st
      else match option_match l with
           | Some (opt_num, o2) =>
               let opts' := opts ++ [make_option opt_num o2] in
               if length opts' <? 4 then (InOptions q_num g2 opts', acc)
               else (InSection mcq,
                     acc ++ [make_question q_num g2 mcq opts'])
           | None =>
               section_step mcq
                 (acc ++ [make_question q_num g2 mcq opts]) line
           end
  end.

(** At the end of input a question still collecting options is appended. *)
Definition finish (st : pass_state) : list question :=
  match st with
  | (InOptions q_num g2 opts, acc) =>
      acc ++ [make_question q_num g2 mcq opts]
  | (_, acc) => acc
  end.

Definition one_pass (lines : list str) : list question :=
  finish (fold_left step lines (Top, [])).

(** A line that is not blank once stripped. *)
Definition not_blank (line : str) : bool := negb (blank (strip line)).

(** Lines a question or an option was read from. *)
Definition weight (q : question) : nat := S (length (options q)).

Definition total_weight (qs : list question) : nat :=
  list_sum (map weight qs).

(** Questions put in front of what a pass has gathered. *)
Definition prepend (front : list question) (st : pass_state) : pass_state :=
  (fst st, front ++ snd st).

(** A string whose last character is not white space. *)
Definition ends_plain (s : str) : Prop :=
  forall init z, s = init ++ [z] -> is_space z = false.

(** An option whose text, read again as an option line, gives back its
    label and its body. *)
Definition stable_option (o : option_entry) : Prop :=
  exists body,
    body <> [] /\ strip body = body /\ forallb no_newline body = true
    /\ option_text o = dot_join (letter o) body
    /\ option_match (option_text o) = Some (letter o, body).

(** A question whose text, read again as a question line, gives back its
    number and its body, and whose options are stable as well. *)
Definition stable_question (q : question) : Prop :=
  exists body,
    body <> [] /\ strip body = body /\ forallb no_newline body = true
    /\ text q = dot_join (number q) body
    /\ question_match (text q) = Some (number q, body)
    /\ Forall stable_option (options q).



(** ** [create_structured_pdf]

    The function appends flowables to the list [content] and hands that
    list to [doc.build]; the list is what is modelled.  A style is named
    by its key in the sample style sheet.  The height of a spacer is a
    floating point multiple of [inch] in the source; it is kept as the
    factor, in hundredths of an inch.

    reportlab's [Paragraph(text, style)] parses [text] as markup when the
    paragraph is constructed and raises [ValueError] on a text it cannot
    parse (an unclosed tag, for one).  The source catches nothing, so the
    first such text ends [create_structured_pdf] before [doc.build] is
    reached.  The markup parser is the library's; it is a parameter of the
    model, and the result is [None] when a constructor raised. *)

Inductive style := Title | Heading1 | Heading2 | Normal.

Inductive flowable :=
| Paragraph (content : str) (sty : style)
| Spacer (width hundredths : nat).

Definition style_eqb (a b : style) : bool :=
  match a, b with
  | Title, Title | Heading1, Heading1
  | Heading2, Heading2 | Normal, Normal => true
  | _, _ => false
  end.

(** [[q for q in questions if q["type"] == k]] *)
Definition of_type (k : qtype) (questions : list question) : list question :=
  filter (fun q => qtype_eqb (type q) k) questions.

Section Render.

(** Whether the markup parser of [Paragraph] accepts a text. *)
Variable accepts_markup : str -> bool.

(** [Paragraph(text, style)] *)
Definition new_paragraph (t : str) (sty : style) : option flowable :=
  if accepts_markup t then Some (Paragraph t sty) else None.

(** [for option in question["options"]:
       content.append(Paragraph(option["text"], normal_style))] *)
Fixpoint append_options (opts : list option_entry)
         (content : list flowable) : option (list flowable) :=
  match opts with
  | [] => Some content
  | opt :: rest =>
      do p <- new_paragraph (option_text opt) Normal;
      append_options rest (content ++ [p])
  end.

(** The body of the loop over [mcq_questions]. *)
Definition mcq_block (question : question) (content : list flowable)
  : option (list flowable) :=
  do p <- new_paragraph (text question) Heading2;
  do content1 <- append_options (options question)
                                (content ++ [p; Spacer 1 5]);
  Some (content1 ++ [Spacer 1 15]).

(** The body of the loops over the three other groups. *)
Definition plain_block (question : question) (content : list flowable)
  : option (list flowable) :=
  do p <- new_paragraph (text question) Heading2;
  Some (content ++ [p; Spacer 1 15]).

(** [for question in group: block] *)
Fixpoint append_blocks
         (block : question -> list flowable -> option (list flowable))
         (grp : list question) (content : list flowable)
  : option (list flowable) :=
  match grp with
  | [] => Some content
  | q :: rest =>
      do content1 <- block q content;
      append_blocks block rest content1
  end.

(** [if group: heading, spacer, one block per question]. *)
Definition section_block (title : string)
           (block : question -> list flowable -> option (list flowable))
           (grp : list question) (content : list flowable)
  : option (list flowable) :=
  match grp with
  | [] => Some content
  | _ :: _ =>
      do h <- new_paragraph (lit title) Heading1;
      append_blocks block grp (content ++ [h; Spacer 1 15])
  end.

(** The [content] list as it is when [doc.build] is called. *)
Definition create_structured_pdf (questions : list question)
  : option (list flowable) :=
  do t <- new_paragraph (lit "Questionnaire") Title;
  do content1 <- section_block "Multiple Choice Questions:" mcq_block
                   (of_type mcq questions) [t; Spacer 1 25];
  do content2 <- section_block "True or False:" plain_block
                   (of_type true_false questions) content1;
  do content3 <- section_block "Short Answer Questions:" plain_block
                   (of_type short_answer questions) content2;
  section_block "Long Answer Questions:" plain_block
    (of_type long_answer questions) content3.

End Render.

(** The texts [create_structured_pdf] passes to [Paragraph], in the order
    of the calls: the title, then for each group that is not empty its
    heading and, per question, the text of the question and (MCQ only)
    the texts of its options. *)
Definition group_texts (title : string) (texts : question -> list str)
           (grp : list question) : list str :=
  match grp with
  | [] => []
  | _ :: _ => lit title :: flat_map texts grp
  end.

Definition mcq_texts (q : question) : list str :=
  text q :: map option_text (options q).

Definition plain_texts (q : question) : list str := [text q].

Definition document_texts (questions : list question) : list str :=
  lit "Questionnaire"
  :: group_texts "Multiple Choice Questions:" mcq_texts
       (of_type mcq questions)
  ++ group_texts "True or False:" plain_texts
       (of_type true_false questions)
  ++ group_texts "Short Answer Questions:" plain_texts
       (of_type short_answer questions)
  ++ group_texts "Long Answer Questions:" plain_texts
       (of_type long_answer questions).

(** The flowables the calls append when no constructor raises. *)
Definition mcq_flowables (question : question) : list flowable :=
  [Paragraph (text question) Heading2; Spacer 1 5]
  ++ map (fun opt => Paragraph (option_text opt) Normal)
         (options question)
  ++ [Spacer 1 15].

Definition plain_flowables (question : question) : list flowable :=
  [Paragraph (text question) Heading2; Spacer 1 15].

Definition section_flowables (title : string)
           (flowables : question -> list flowable) (grp : list question)
  : list flowable :=
  match grp with
  | [] => []
  | _ :: _ =>
      [Paragraph (lit title) Heading1; Spacer 1 15]
      ++ flat_map flowables grp
  end.

Definition planned_content (questions : list question) : list flowable :=
  [Paragraph (lit "Questionnaire") Title; Spacer 1 25]
  ++ section_flowables "Multiple Choice Questions:" mcq_flowables
       (of_type mcq questions)
  ++ section_flowables "True or False:" plain_flowables
       (of_type true_false questions)
  ++ section_flowables "Short Answer Questions:" plain_flowables
       (of_type short_answer questions)
  ++ section_flowables "Long Answer Questions:" plain_flowables
       (of_type long_answer questions).

(** An acceptor for the examples: a text with a [<] in it is refused
    (every tag the markup parser could stumble on starts with one). *)
Definition no_tag (t : str) : bool :=
  forallb (fun c => negb (Ascii.eqb c "<")) t.

(** ** [main]

    The grouping loop of [main]:
    [question_types[q["type"]].append(q)] over a dictionary with the four
    kinds as keys; a dictionary with these fixed keys is a function of
    the kind. *)
Definition question_types (questions : list question)
  : qtype -> list question :=
  fold_left
    (fun groups q k =>
       if qtype_eqb k (type q) then groups k ++ [q] else groups k)
    questions (fun _ => []).

(** The texts of the paragraphs of a given style, in order. *)
Definition paragraphs_of (sty : style) (content : list flowable)
  : list str :=
  flat_map (fun f => match f with
                     | Paragraph t s => if style_eqb s sty then [t] else []
                     | Spacer _ _ => []
                     end) content.

(** The four groups in the order of the document. *)
Definition grouped (questions : list question) : list question :=
  of_type mcq questions ++ of_type true_false questions
  ++ of_type short_answer questions ++ of_type long_answer questions.

(** The heading of each group. *)
Definition heading (k : qtype) : str :=
  match k with
  | mcq => lit "Multiple Choice Questions:"
  | true_false => lit "True or False:"
  | short_answer => lit "Short Answer Questions:"
  | long_answer => lit "Long Answer Questions:"
  end.

(** ** The spellings of a section header

    The words of the pattern of each section header. *)
Definition phrase_words (k : qtype) : list string :=
  match k with
  | mcq => ["Multiple"; "Choice"]
  | true_false => ["True"; "or"; "False"]
  | short_answer => ["Short"; "Answer"]
  | long_answer => ["Long"; "Answer"]
  end%string.

(** [v] is the word [w] up to the case of its letters. *)
Fixpoint spelled (v w : str) : bool :=
  match v, w with
  | [], [] => true
  | x :: v', c :: w' => Ascii.eqb (lower x) (lower c) && spelled v' w'
  | _, _ => false
  end.

(** A line that spells the words in order, each in any letter case, with
    a run of one or more white space characters between two words. *)
Inductive spelling : list string -> str -> Prop :=
| spelling_last w v :
    spelled v (lit w) = true -> spelling [w] v
| spelling_more w w' ws v gap rest :
    spelled v (lit w) = true ->
    gap <> [] -> forallb is_space gap = true ->
    spelling (w' :: ws) rest ->
    spelling (w :: w' :: ws) (v ++ gap ++ rest).

(** A word without white space, also after case folding. *)
Definition plain_word (w : string) : bool :=
  negb (blank (lit w))
  && forallb (fun c => negb (is_space (lower c))) (lit w).

(** * Properties *)

(** ** Characters *)

(** A boolean property of characters holds for all of them if it holds
    for the 256 code points. *)
Lemma for_all_chars (P : ascii -> bool) :
  forallb P all_chars = true -> forall c, P c = true.
Proof.
  intros H c.
  rewrite forallb_forall in H. apply H.
  unfold all_chars. rewrite <- (ascii_nat_embedding c).
  apply in_map, in_seq.
  pose proof (nat_ascii_bounded c). lia.
Qed.

Ltac by_chars :=
  let c := fresh "c" in
  intro c; revert c;
  match goal with
  | |- forall c : ascii, @?P c = true => apply (for_all_chars P)
  end; vm_compute; reflexivity.

Lemma delimiter_ic : forall c,
  Bool.eqb (atom_match true (Set_ [IChar "."; IChar ")"; ISpace]) c)
           (delimiter c) = true.
Proof. by_chars. Qed.

Lemma header_initial_plain : forall c,
  implb (header_initial c)
        (negb (is_digit c) && negb (option_label c) && negb (is_space c))
  = true.
Proof. by_chars. Qed.

Lemma initials_exclusive : forall c,
  implb (char_eq true "M" c)
        (negb (char_eq true "T" c) && negb (char_eq true "S" c)
         && negb (char_eq true "L" c))
  && implb (char_eq true "T" c)
        (negb (char_eq true "S" c) && negb (char_eq true "L" c))
  && implb (char_eq true "S" c) (negb (char_eq true "L" c)) = true.
Proof. by_chars. Qed.


Lemma space_is_delimiter : forall c,
  implb (is_space c) (delimiter c) = true.
Proof. by_chars. Qed.

Lemma newline_is_space : forall c,
  implb (is_newline c) (is_space c) = true.
Proof. by_chars. Qed.

Lemma is_newline_spec : forall c, is_newline c = true <-> c = newline.
Proof.
  intro c. unfold is_newline, code, newline. rewrite Nat.eqb_eq. split.
  - intro H. rewrite <- (ascii_nat_embedding c), H. reflexivity.
  - intros ->. reflexivity.
Qed.

(** ** [strip] *)

Lemma lstrip_spaces (s : str) :
  forallb is_space s = true -> lstrip s = [].
Proof.
  induction s as [|c s IH]; simpl; [reflexivity|].
  intro H. apply andb_prop in H as [Hc Hs]. rewrite Hc. auto.
Qed.

Lemma strip_spaces (s : str) :
  forallb is_space s = true -> strip s = [].
Proof.
  intro H. unfold strip, rstrip. rewrite (lstrip_spaces _ H). reflexivity.
Qed.

(** [lstrip] removes a prefix of white space and nothing else. *)
Lemma lstrip_split (s : str) :
  exists w, s = w ++ lstrip s /\ forallb is_space w = true.
Proof.
  induction s as [|c s [w [E W]]]; simpl.
  - exists []. auto.
  - destruct (is_space c) eqn:Hc.
    + exists (c :: w). simpl. rewrite Hc, W. split; [congruence|reflexivity].
    + exists []. auto.
Qed.

Lemma lstrip_head (s : str) :
  match lstrip s with
  | [] => True
  | c :: _ => is_space c = false
  end.
Proof.
  induction s as [|c s IH]; simpl; [exact I|].
  destruct (is_space c) eqn:Hc; [exact IH|exact Hc].
Qed.

Lemma lstrip_app (s t : str) :
  lstrip s <> [] -> lstrip (s ++ t) = lstrip s ++ t.
Proof.
  induction s as [|c s IH]; simpl; [congruence|].
  destruct (is_space c); auto.
Qed.

Lemma lstrip_app_spaces (w t : str) :
  forallb is_space w = true -> lstrip (w ++ t) = lstrip t.
Proof.
  induction w as [|c w IH]; simpl; [reflexivity|].
  intro H. apply andb_prop in H as [Hc Hw]. rewrite Hc. auto.
Qed.

Lemma rstrip_split (s : str) :
  exists w, s = rstrip s ++ w /\ forallb is_space w = true.
Proof.
  unfold rstrip. destruct (lstrip_split (rev s)) as [w [E W]].
  exists (rev w). split.
  - rewrite <- rev_app_distr, <- E, rev_involutive. reflexivity.
  - rewrite forallb_forall in *. intros x Hx. apply W, in_rev, Hx.
Qed.

(** Appending text to a line keeps what [rstrip] left of the line. *)
Lemma rstrip_app (s t : str) :
  exists u, rstrip (s ++ t) = rstrip s ++ u.
Proof.
  destruct (rstrip_split s) as [w [E W]].
  unfold rstrip at 1. rewrite rev_app_distr.
  destruct (lstrip (rev t)) as [|c r] eqn:Ht.
  - destruct (lstrip_split (rev t)) as [w' [E' W']].
    rewrite Ht, app_nil_r in E'. rewrite E', lstrip_app_spaces by exact W'.
    exists []. now rewrite app_nil_r.
  - rewrite lstrip_app by congruence. rewrite Ht.
    exists (w ++ rev (c :: r)).
    rewrite rev_app_distr, rev_involutive, app_assoc, <- E. reflexivity.
Qed.

(** The stripped line is a prefix of the stripped lengthened line. *)
Lemma strip_app (s t : str) :
  strip s <> [] -> exists u, strip (s ++ t) = strip s ++ u.
Proof.
  intro H. unfold strip in *.
  assert (lstrip s <> []) as Hl.
  { intro E. rewrite E in H. now apply H. }
  rewrite lstrip_app by exact Hl. apply rstrip_app.
Qed.

Lemma strip_nil : strip [] = [].
Proof. reflexivity. Qed.

(** ** The matcher *)

Section MatcherFacts.
Variable ic : bool.

(** What a successful [a+] consumed. *)
Lemma plus_match_sound (R : Type) (a : atom) (k : str -> option R) :
  forall s r, plus_match ic a s k = Some r ->
  exists pre rest, s = pre ++ rest /\ pre <> []
    /\ forallb (atom_match ic a) pre = true /\ k rest = Some r.
Proof.
  induction s as [|c s IH]; simpl; intros r H; [discriminate|].
  destruct (atom_match ic a c) eqn:Hc; [|discriminate].
  destruct (plus_match ic a s k) as [r'|] eqn:Hp.
  - destruct (IH _ eq_refl) as (pre & rest & -> & _ & Hall & Hk).
    exists (c :: pre), rest. simpl. rewrite Hc, Hall.
    repeat split; congruence.
  - exists [c], s. simpl. rewrite Hc. repeat split; congruence.
Qed.

(** With nothing after it that can fail, [a+] takes the longest run. *)
Lemma plus_match_greedy (R : Type) (a : atom) (f : str -> R) :
  forall s r, plus_match ic a s (fun s' => Some (f s')) = Some r ->
  exists pre rest, s = pre ++ rest /\ pre <> []
    /\ forallb (atom_match ic a) pre = true
    /\ match rest with [] => True | c :: _ => atom_match ic a c = false end
    /\ r = f rest.
Proof.
  induction s as [|c s IH]; simpl; intros r H; [discriminate|].
  destruct (atom_match ic a c) eqn:Hc; [|discriminate].
  destruct (plus_match ic a s (fun s' => Some (f s'))) as [r'|] eqn:Hp.
  - destruct (IH _ eq_refl) as (pre & rest & -> & _ & Hall & Hrest & ->).
    exists (c :: pre), rest. simpl. rewrite Hc, Hall.
    repeat split; congruence.
  - exists [c], s. simpl. rewrite Hc.
    repeat split; try congruence.
    destruct s as [|c' s']; [exact I|]. simpl in Hp.
    destruct (atom_match ic a c'); [|reflexivity].
    destruct (plus_match ic a s' (fun s' => Some (f s'))); discriminate.
Qed.

(** [a+] followed by a continuation that accepts what is left after the
    longest run stops there. *)
Lemma plus_match_longest (R : Type) (a : atom) (k : str -> option R) :
  forall pre rest r,
  pre <> [] -> forallb (atom_match ic a) pre = true ->
  match rest with [] => True | c :: _ => atom_match ic a c = false end ->
  k rest = Some r ->
  plus_match ic a (pre ++ rest) k = Some r.
Proof.
  induction pre as [|c pre IH]; intros rest r Hne Hall Hrest Hk;
    [congruence|].
  simpl in *. apply andb_prop in Hall as [Hc Hall]. rewrite Hc.
  destruct pre as [|c' pre'].
  - simpl. destruct rest as [|x rest']; simpl; [exact Hk|].
    rewrite Hrest. exact Hk.
  - rewrite (IH rest r); auto. congruence.
Qed.

Lemma plus_match_all (R : Type) (a : atom) (k : str -> option R) :
  forall pre r,
  pre <> [] -> forallb (atom_match ic a) pre = true ->
  k [] = Some r ->
  plus_match ic a pre k = Some r.
Proof.
  intros pre r Hne Hall Hk. rewrite <- (app_nil_r pre).
  apply plus_match_longest; auto.
Qed.

(** A match stays a match when text is appended to the subject, as long
    as the continuation tolerates the appended text. *)
Lemma run_extend (R R' : Type) (t : str) :
  forall r s cs cs' (k : str -> captures -> option R)
         (k' : str -> captures -> option R'),
  (forall s1 c1 c1', is_some (k s1 c1) = true ->
                     is_some (k' (s1 ++ t) c1') = true) ->
  is_some (run ic r s cs k) = true ->
  is_some (run ic r (s ++ t) cs' k') = true.
Proof.
  induction r as [|a|a|r1 IH1 r2 IH2|r1 IH1 r2 IH2|n r1 IH1];
    intros s cs cs' k k' Hk H; simpl in *.
  - eauto.
  - destruct s as [|c s]; simpl in *; [discriminate|].
    destruct (atom_match ic a c); [eauto|discriminate].
  - revert H. induction s as [|c s IHs]; simpl; [discriminate|].
    destruct (atom_match ic a c); [|discriminate].
    destruct (plus_match ic a s (fun s' => k s' cs)) eqn:E1.
    + intros _. specialize (IHs eq_refl).
      destruct (plus_match ic a (s ++ t) (fun s' => k' s' cs'));
        [reflexivity|discriminate].
    + intro H.
      destruct (plus_match ic a (s ++ t) (fun s' => k' s' cs'));
        [reflexivity|eauto].
  - eapply IH1; [|exact H]. intros s1 c1 c1' H1. eapply IH2; eauto.
  - destruct (run ic r1 s cs k) eqn:E1.
    + assert (is_some (run ic r1 (s ++ t) cs' k') = true) as H1
        by (eapply IH1; [exact Hk|rewrite E1; reflexivity]).
      destruct (run ic r1 (s ++ t) cs' k'); [reflexivity|discriminate].
    + destruct (run ic r1 (s ++ t) cs' k'); [reflexivity|].
      eapply IH2; eauto.
  - eapply IH1; [|exact H]. intros s1 c1 c1' H1. simpl. eauto.
Qed.

(** Whether a pattern matches does not depend on the groups recorded so
    far nor on what an always-succeeding continuation returns. *)
Lemma run_accepting (R R' : Type) r s cs cs'
      (f : str -> captures -> R) (f' : str -> captures -> R') :
  is_some (run ic r s cs (fun s1 c1 => Some (f s1 c1)))
  = is_some (run ic r s cs' (fun s1 c1 => Some (f' s1 c1))).
Proof.
  apply eq_true_iff_eq. split; intro H.
  - rewrite <- (app_nil_r s). eapply run_extend; [|exact H]. reflexivity.
  - rewrite <- (app_nil_r s). eapply run_extend; [|exact H]. reflexivity.
Qed.
End MatcherFacts.

Lemma firstn_consumed (pre rest : str) :
  firstn (length (pre ++ rest) - length rest) (pre ++ rest) = pre.
Proof.
  rewrite length_app, Nat.add_sub, firstn_app, Nat.sub_diag, firstn_all.
  simpl. apply app_nil_r.
Qed.

(** Header matching is a prefix test. *)
Lemma matches_ic_prefix (r : regex) (s t : str) :
  matches_ic r s = true -> matches_ic r (s ++ t) = true.
Proof.
  unfold matches_ic, match_. intro H.
  change (is_some (run true r (s ++ t) [] (fun _ cs => Some cs)) = true).
  eapply run_extend; [|exact H]. reflexivity.
Qed.

(** The terminator pattern of a section is the disjunction of its three
    phrases. *)
Lemma matches_alt3 (a b c : regex) (s : str) :
  matches_ic (alt3 a b c) s
  = matches_ic a s || matches_ic b s || matches_ic c s.
Proof.
  assert (forall r, matches_ic r s
            = is_some (run true r s [] (fun s1 c1 =>
                Some ((1, firstn (length s - length s1) s) :: c1)))) as E.
  { intro r. unfold matches_ic, match_.
    exact (run_accepting true r s [] [] (fun _ x => x)
             (fun s1 c1 => (1, firstn (length s - length s1) s) :: c1)). }
  rewrite (E a), (E b), (E c).
  unfold matches_ic, match_, alt3. simpl.
  destruct (run true a s [] _); [reflexivity|].
  destruct (run true b s [] _); [reflexivity|].
  destruct (run true c s [] _); reflexivity.
Qed.

(** ** The patterns *)

Lemma forallb_eq (A : Type) (f g : A -> bool) (l : list A) :
  (forall x, f x = g x) -> forallb f l = forallb g l.
Proof.
  intro H. induction l as [|x l IH]; simpl; [reflexivity|].
  now rewrite H, IH.
Qed.

Lemma delimiter_any_case (ic : bool) (c : ascii) :
  atom_match ic (Set_ [IChar "."; IChar ")"; ISpace]) c = delimiter c.
Proof.
  destruct ic; [|reflexivity].
  apply eqb_prop, delimiter_ic.
Qed.

(** The common tail [[\.)\s]+(.+)] of the question and option patterns. *)
Lemma tail_sound (ic : bool) (s : str) (cs0 cs : captures) :
  run ic (Cat delimiters (Group 2 (Plus Dot))) s cs0
      (fun _ c => Some c) = Some cs ->
  exists delims body rest,
    labelled s [] delims body rest /\ cs = (2, body) :: cs0.
Proof.
  unfold delimiters. cbn [run]. intro H.
  apply plus_match_sound in H as (delims & s1 & -> & Hne & Hall & H).
  apply plus_match_greedy in H as (body & rest & -> & Hb & Hball & Hr & ->).
  exists delims, body, rest. split.
  - unfold labelled. simpl. repeat split; auto.
    + erewrite forallb_eq; [exact Hall|].
      intro c. symmetry. apply delimiter_any_case.
    + destruct rest as [|c rest]; [exact I|].
      simpl in Hr. now apply negb_false_iff in Hr.
  - now rewrite firstn_consumed.
Qed.

Lemma tail_complete (ic : bool) (delims body : str) (cs0 : captures) :
  delims <> [] -> forallb delimiter delims = true ->
  forallb no_newline body = true ->
  match body with [] => False | c :: _ => delimiter c = false end ->
  run ic (Cat delimiters (Group 2 (Plus Dot))) (delims ++ body) cs0
      (fun _ c => Some c) = Some ((2, body) :: cs0).
Proof.
  intros Hne Hall Hbody Hhd. unfold delimiters. cbn [run].
  apply plus_match_longest; auto.
  - erewrite forallb_eq; [exact Hall|].
    intro c. apply delimiter_any_case.
  - destruct body as [|c body]; [exact I|].
    now rewrite delimiter_any_case.
  - apply plus_match_all.
    + destruct body; [contradiction|congruence].
    + exact Hbody.
    + simpl. now rewrite Nat.sub_0_r, firstn_all.
Qed.

(** [question_match] succeeds exactly on "digits, delimiters, body". *)
Lemma question_match_sound (line num g2 : str) :
  question_match line = Some (num, g2) ->
  exists delims rest,
    labelled line num delims g2 rest
    /\ num <> [] /\ forallb is_digit num = true.
Proof.
  unfold question_match, match_, question_re. cbn [run].
  destruct (plus_match _ _ _ _) as [cs|] eqn:H; [|discriminate].
  simpl. intro E.
  apply plus_match_sound in H as (pre & s1 & -> & Hne & Hall & H).
  change (run false (Cat delimiters (Group 2 (Plus Dot))) s1
            [(1, firstn (length (pre ++ s1) - length s1) (pre ++ s1))]
            (fun _ c => Some c) = Some cs) in H.
  apply tail_sound in H as (delims & body & rest & L & ->).
  rewrite firstn_consumed in E. simpl in E. injection E as <- <-.
  exists delims, rest. destruct L as (-> & L). simpl.
  repeat split; try apply L; auto.
Qed.


(** [option_match] succeeds exactly on "one label character, delimiters,
    body". *)
Lemma option_match_sound (line lab g2 : str) :
  option_match line = Some (lab, g2) ->
  exists c delims rest,
    labelled line lab delims g2 rest
    /\ lab = [c] /\ option_label c = true.
Proof.
  unfold option_match, match_, option_re. cbn [run].
  destruct line as [|c s1]; [discriminate|].
  fold (option_label c). destruct (option_label c) eqn:Hc; [|discriminate].
  match goal with
  | |- groups12 ?m = _ -> _ => destruct m as [cs|] eqn:H; [|discriminate]
  end.
  simpl. intro E.
  change (run true (Cat delimiters (Group 2 (Plus Dot))) s1
            [(1, firstn (length (c :: s1) - length s1) (c :: s1))]
            (fun _ c => Some c) = Some cs) in H.
  apply tail_sound in H as (delims & body & rest & L & ->).
  change (c :: s1) with ([c] ++ s1) in E.
  rewrite firstn_consumed in E. simpl in E. injection E as <- <-.
  exists c, delims, rest. destruct L as (-> & L). simpl.
  repeat split; try apply L; auto.
Qed.


(** A matching line starts with the first letter of its phrase. *)
Ltac phrase_initial :=
  let c := fresh "c" in
  intros [|c rest]; [discriminate|];
  unfold matches_ic, match_, multiple_choice_re, true_or_false_re,
    short_answer_re, long_answer_re;
  cbn [words lits lit list_ascii_of_string run atom_match starts_with];
  match goal with
  | |- context [char_eq true ?x c] =>
      destruct (char_eq true x c); [intros _; reflexivity|discriminate]
  end.

Lemma multiple_choice_initial : forall line,
  matches_ic multiple_choice_re line = true ->
  starts_with (char_eq true "M") line = true.
Proof. phrase_initial. Qed.

Lemma true_or_false_initial : forall line,
  matches_ic true_or_false_re line = true ->
  starts_with (char_eq true "T") line = true.
Proof. phrase_initial. Qed.

Lemma short_answer_initial : forall line,
  matches_ic short_answer_re line = true ->
  starts_with (char_eq true "S") line = true.
Proof. phrase_initial. Qed.

Lemma long_answer_initial : forall line,
  matches_ic long_answer_re line = true ->
  starts_with (char_eq true "L") line = true.
Proof. phrase_initial. Qed.

(** ** Headers *)

Lemma phrase_initial_char (k : qtype) (line : str) :
  matches_ic (phrase k) line = true ->
  starts_with (char_eq true (initial k)) line = true.
Proof.
  destruct k; simpl.
  - apply multiple_choice_initial.
  - apply true_or_false_initial.
  - apply short_answer_initial.
  - apply long_answer_initial.
Qed.

Lemma phrases_exclusive (k k' : qtype) (line : str) :
  matches_ic (phrase k) line = true ->
  matches_ic (phrase k') line = true -> k = k'.
Proof.
  intros H1 H2. apply phrase_initial_char in H1, H2.
  destruct line as [|c r]; [discriminate|]. simpl in *.
  pose proof (initials_exclusive c) as X.
  destruct k, k'; try reflexivity; simpl in H1, H2;
    rewrite H1, H2 in X; simpl in X;
    rewrite ?andb_false_r in X; discriminate.
Qed.

Lemma header_kind_spec (k : qtype) (line : str) :
  header_kind line = Some k <-> matches_ic (phrase k) line = true.
Proof.
  unfold header_kind. split.
  - destruct (matches_ic multiple_choice_re line) eqn:M;
      [intro E; injection E as <-; exact M|].
    destruct (matches_ic true_or_false_re line) eqn:T;
      [intro E; injection E as <-; exact T|].
    destruct (matches_ic short_answer_re line) eqn:S;
      [intro E; injection E as <-; exact S|].
    destruct (matches_ic long_answer_re line) eqn:L;
      [intro E; injection E as <-; exact L|discriminate].
  - intro H.
    destruct (matches_ic multiple_choice_re line) eqn:M;
      [f_equal; exact (@phrases_exclusive mcq k line M H)|].
    destruct (matches_ic true_or_false_re line) eqn:T;
      [f_equal; exact (@phrases_exclusive true_false k line T H)|].
    destruct (matches_ic short_answer_re line) eqn:S;
      [f_equal; exact (@phrases_exclusive short_answer k line S H)|].
    destruct (matches_ic long_answer_re line) eqn:L;
      [f_equal; exact (@phrases_exclusive long_answer k line L H)|].
    destruct k; simpl in H; congruence.
Qed.

Lemma header_kind_initial (line : str) (k : qtype) :
  header_kind line = Some k -> starts_with header_initial line = true.
Proof.
  intro H. apply header_kind_spec, phrase_initial_char in H.
  destruct line as [|c r]; [discriminate|]. simpl in *.
  unfold header_initial.
  destruct k; simpl in H; rewrite H; now rewrite ?orb_true_r.
Qed.

(** A line stops the section of kind [k] exactly when it is the header of
    another kind. *)
Lemma terminator_iff (k : qtype) (line : str) :
  matches_ic (terminators k) line = true
  <-> exists k', header_kind line = Some k' /\ k' <> k.
Proof.
  split.
  - intro H.
    destruct k; simpl in H; unfold mcq_terminators, true_false_terminators,
      short_answer_terminators, long_answer_terminators in H;
      rewrite matches_alt3 in H;
      apply orb_prop in H as [H|H]; try (apply orb_prop in H as [H|H]);
      first
        [ exists mcq; split;
          [exact (proj2 (header_kind_spec mcq line) H)|discriminate]
        | exists true_false; split;
          [exact (proj2 (header_kind_spec true_false line) H)|discriminate]
        | exists short_answer; split;
          [exact (proj2 (header_kind_spec short_answer line) H)|discriminate]
        | exists long_answer; split;
          [exact (proj2 (header_kind_spec long_answer line) H)
          |discriminate] ].
  - intros (k' & E & N). apply header_kind_spec in E.
    destruct k; simpl; unfold mcq_terminators, true_false_terminators,
      short_answer_terminators, long_answer_terminators;
      rewrite matches_alt3;
      destruct k'; try congruence; simpl in E; rewrite E;
      now rewrite ?orb_true_r.
Qed.

(** Neither a question line nor an option line is a header. *)
Lemma plain_start_not_header (line : str) :
  starts_with (fun c => is_digit c || option_label c || is_space c) line
  = true ->
  header_kind line = None.
Proof.
  intro H. destruct (header_kind line) as [k|] eqn:E; [|reflexivity].
  apply header_kind_initial in E.
  destruct line as [|c r]; [discriminate|]. simpl in *.
  pose proof (header_initial_plain c) as P. rewrite E in P. simpl in P.
  destruct (is_digit c), (option_label c), (is_space c); discriminate.
Qed.

Lemma header_not_terminator (k : qtype) (line : str) :
  header_kind line = None -> matches_ic (terminators k) line = false.
Proof.
  intro H. destruct (matches_ic (terminators k) line) eqn:E; [|reflexivity].
  apply terminator_iff in E as (k' & E & _). congruence.
Qed.

Lemma question_line_first (line : str) (x : str * str) :
  question_match line = Some x -> starts_with is_digit line = true.
Proof.
  destruct x as [num g2]. intro H.
  apply question_match_sound in H as (d & r & (-> & _) & Hne & Hd).
  destruct num as [|c num]; [congruence|]. simpl in *.
  now apply andb_prop in Hd as [Hc _].
Qed.

Lemma option_line_first (line : str) (x : str * str) :
  option_match line = Some x -> starts_with option_label line = true.
Proof.
  destruct x as [lab g2]. intro H.
  apply option_match_sound in H as (c & d & r & (-> & _) & -> & Hc).
  exact Hc.
Qed.

Lemma question_line_not_header (line : str) (x : str * str) :
  question_match line = Some x -> header_kind line = None.
Proof.
  intro H. apply plain_start_not_header.
  apply question_line_first in H.
  destruct line as [|c r]; [discriminate|]. simpl in *. now rewrite H.
Qed.

Lemma header_not_option (line : str) (k : qtype) :
  header_kind line = Some k -> option_match line = None.
Proof.
  intro H. destruct (option_match line) as [x|] eqn:E; [|reflexivity].
  apply option_line_first in E.
  rewrite plain_start_not_header in H; [discriminate|].
  destruct line as [|c r]; [discriminate|]. simpl in *.
  rewrite E. now rewrite orb_true_r.
Qed.

Lemma header_kind_nil : header_kind [] = None.
Proof. reflexivity. Qed.

(** Extra text after the phrase does not change the kind of a header. *)
Lemma header_kind_prefix (line extra : str) (k : qtype) :
  header_kind line = Some k -> header_kind (line ++ extra) = Some k.
Proof.
  intro H. apply header_kind_spec. apply matches_ic_prefix.
  now apply header_kind_spec.
Qed.

(** ** The section loops *)

Lemma from_option_line_weaken lines lo hi lo' hi' o :
  lo' <= lo -> hi <= hi' ->
  from_option_line lines lo hi o -> from_option_line lines lo' hi' o.
Proof.
  intros H1 H2 (j & g & Hj & H). exists j, g. split; [lia|exact H].
Qed.

Lemma emitted_weaken lines ty lo hi lo' hi' q :
  lo' <= lo -> hi <= hi' ->
  emitted lines ty lo hi q -> emitted lines ty lo' hi' q.
Proof.
  intros H1 H2 (j & g & Hj & Hm & Ht & Hty & Hlen & Hno & Ho).
  exists j, g. repeat split; auto; try lia.
  eapply Forall_impl; [|exact Ho].
  intros o. apply from_option_line_weaken; lia.
Qed.

Section Loops.
Variable lines : list str.

Lemma option_loop_spec : forall fuel i option_count opts,
  length lines - i < fuel ->
  exists new r,
    option_loop fuel lines i option_count opts = Some (opts ++ new, r)
    /\ i <= r /\ (i <= length lines -> r <= length lines)
    /\ option_count + length new <= Nat.max option_count 4
    /\ Forall (from_option_line lines i r) new.
Proof.
  induction fuel as [|fuel IH]; intros i cnt opts Hf; [lia|].
  cbn [option_loop].
  destruct (i <? length lines) eqn:Hi; cbn [andb];
    [apply Nat.ltb_lt in Hi|].
  2: { exists [], i. rewrite app_nil_r. repeat split; auto; simpl; lia. }
  destruct (cnt <? 4) eqn:Hc; [apply Nat.ltb_lt in Hc|].
  2: { exists [], i. rewrite app_nil_r. repeat split; auto; simpl; lia. }
  cbv zeta.
  destruct (blank (strip (line_at lines i))) eqn:Hb.
  { destruct (IH (S i) cnt opts ltac:(lia)) as (new & r & E & L1 & L2 & C & F).
    exists new, r. repeat split; auto; try lia.
    eapply Forall_impl; [|exact F].
    intro o. apply from_option_line_weaken; lia. }
  destruct (option_match (strip (line_at lines i))) as [[opt_num g2]|] eqn:Hm.
  2: { exists [], i. rewrite app_nil_r. repeat split; auto; simpl; lia. }
  destruct (IH (S i) (S cnt)
               (opts ++ [{| letter := opt_num;
                            option_text := dot_join opt_num (strip g2) |}])
               ltac:(lia)) as (new & r & E & L1 & L2 & C & F).
  eexists (_ :: new), r. rewrite E, <- app_assoc. simpl.
  repeat split; auto; try lia.
  constructor.
  - exists i, g2. simpl. repeat split; auto; lia.
  - eapply Forall_impl; [|exact F].
    intro o. apply from_option_line_weaken; lia.
Qed.

Lemma mcq_loop_spec : forall fuel i questions,
  length lines - i < fuel ->
  exists new r,
    mcq_loop fuel lines i questions = Some (questions ++ new, r)
    /\ i <= r /\ (i <= length lines -> r <= length lines)
    /\ Forall (emitted lines mcq i r) new
    /\ stopped_at lines mcq r.
Proof.
  induction fuel as [|fuel IH]; intros i acc Hf; [lia|].
  cbn [mcq_loop].
  destruct (i <? length lines) eqn:Hi;
    [apply Nat.ltb_lt in Hi|apply Nat.ltb_ge in Hi].
  2: { exists [], i. rewrite app_nil_r. repeat split; auto.
       intro. lia. }
  cbv zeta.
  destruct (blank (strip (line_at lines i))) eqn:Hb.
  { destruct (IH (S i) acc ltac:(lia)) as (new & r & E & L1 & L2 & F & T).
    exists new, r. repeat split; auto; try lia.
    eapply Forall_impl; [|exact F].
    intro q. apply emitted_weaken; lia. }
  destruct (matches_ic mcq_terminators (strip (line_at lines i))) eqn:Ht.
  { exists [], i. rewrite app_nil_r. repeat split; auto.
    intros _. exact Ht. }
  destruct (question_match (strip (line_at lines i)))
    as [[q_num g2]|] eqn:Hm.
  2: { destruct (IH (S i) acc ltac:(lia)) as (new & r & E & L1 & L2 & F & T).
       exists new, r. repeat split; auto; try lia.
       eapply Forall_impl; [|exact F].
       intro q. apply emitted_weaken; lia. }
  assert (length lines - S i < fuel_from lines (S i)) as Hfo
    by (unfold fuel_from; lia).
  destruct (@option_loop_spec _ _ 0 [] Hfo)
    as (opts & i' & Eo & O1 & O2 & OC & OF).
  rewrite Eo. cbn [app].
  destruct (IH i' (acc ++ [{| number := q_num;
                              text := dot_join q_num (strip g2);
                              type := mcq; options := opts |}])
               ltac:(lia)) as (new & r & E & L1 & L2 & F & T).
  eexists (_ :: new), r. rewrite E, <- app_assoc. simpl.
  repeat split; auto; try lia.
  constructor.
  - exists i, g2. simpl. repeat split; auto; try lia.
    + congruence.
    + eapply Forall_impl; [|exact OF].
      intro o. apply from_option_line_weaken; lia.
  - eapply Forall_impl; [|exact F].
    intro q. apply emitted_weaken; lia.
Qed.

Lemma plain_loop_spec (k : qtype) : forall fuel i questions,
  k <> mcq ->
  length lines - i < fuel ->
  exists new r,
    plain_loop (terminators k) k fuel lines i questions
    = Some (questions ++ new, r)
    /\ i <= r /\ (i <= length lines -> r <= length lines)
    /\ Forall (emitted lines k i r) new
    /\ stopped_at lines k r.
Proof.
  intros fuel i acc Hk. revert i acc.
  induction fuel as [|fuel IH]; intros i acc Hf; [lia|].
  cbn [plain_loop].
  destruct (i <? length lines) eqn:Hi;
    [apply Nat.ltb_lt in Hi|apply Nat.ltb_ge in Hi].
  2: { exists [], i. rewrite app_nil_r. repeat split; auto.
       intro. lia. }
  cbv zeta.
  destruct (blank (strip (line_at lines i))) eqn:Hb.
  { destruct (IH (S i) acc ltac:(lia)) as (new & r & E & L1 & L2 & F & T).
    exists new, r. repeat split; auto; try lia.
    eapply Forall_impl; [|exact F].
    intro q. apply emitted_weaken; lia. }
  destruct (matches_ic (terminators k) (strip (line_at lines i))) eqn:Ht.
  { exists [], i. rewrite app_nil_r. repeat split; auto.
    intros _. exact Ht. }
  destruct (question_match (strip (line_at lines i)))
    as [[q_num g2]|] eqn:Hm.
  2: { destruct (IH (S i) acc ltac:(lia)) as (new & r & E & L1 & L2 & F & T).
       exists new, r. repeat split; auto; try lia.
       eapply Forall_impl; [|exact F].
       intro q. apply emitted_weaken; lia. }
  destruct (IH (S i) (acc ++ [{| number := q_num;
                                 text := dot_join q_num (strip g2);
                                 type := k; options := [] |}])
               ltac:(lia)) as (new & r & E & L1 & L2 & F & T).
  eexists (_ :: new), r. rewrite E, <- app_assoc. simpl.
  repeat split; auto; try lia.
  constructor.
  - exists i, g2. simpl. repeat split; auto; lia.
  - eapply Forall_impl; [|exact F].
    intro q. apply emitted_weaken; lia.
Qed.

Lemma skip_first_blank_bounds (start : nat) :
  start <= skip_first_blank lines start
  /\ (start <= length lines -> skip_first_blank lines start <= length lines).
Proof.
  unfold skip_first_blank.
  destruct (start <? length lines) eqn:Hs; simpl; [|lia].
  apply Nat.ltb_lt in Hs.
  destruct (blank (strip (line_at lines start))); lia.
Qed.

(** Every section parser returns, with a cursor between the start index
    and the end of input, questions of its own kind read from lines in
    between, and it stops only at the end or at another header. *)
Lemma section_parser_spec (k : qtype) (start : nat) :
  exists qs r,
    section_parser k lines start = Some (qs, r)
    /\ start <= r /\ (start <= length lines -> r <= length lines)
    /\ Forall (emitted lines k start r) qs
    /\ stopped_at lines k r.
Proof.
  destruct (skip_first_blank_bounds start) as [B1 B2].
  assert (length lines - skip_first_blank lines start
          < fuel_from lines (skip_first_blank lines start)) as Hf
    by (unfold fuel_from; lia).
  assert (forall r qs,
    Forall (emitted lines k (skip_first_blank lines start) r) qs ->
    Forall (emitted lines k start r) qs) as W.
  { intros r qs F. eapply Forall_impl; [|exact F].
    intro q. apply emitted_weaken; lia. }
  destruct k.
  - destruct (@mcq_loop_spec _ _ [] Hf) as (new & r & E & L1 & L2 & F & T).
    exists new, r. repeat split; auto; lia.
  - destruct (@plain_loop_spec true_false _ _ [] ltac:(discriminate) Hf)
      as (new & r & E & L1 & L2 & F & T).
    exists new, r. repeat split; auto; lia.
  - destruct (@plain_loop_spec short_answer _ _ [] ltac:(discriminate) Hf)
      as (new & r & E & L1 & L2 & F & T).
    exists new, r. repeat split; auto; lia.
  - destruct (@plain_loop_spec long_answer _ _ [] ltac:(discriminate) Hf)
      as (new & r & E & L1 & L2 & F & T).
    exists new, r. repeat split; auto; lia.
Qed.
End Loops.

(** A section parser never moves past the header of another kind. *)
Section Stop.
Variable lines : list str.
Variable j : nat.


Variable k : qtype.
Hypothesis j_header :
  matches_ic (terminators k) (strip (line_at lines j)) = true.






End Stop.


(** ** The dispatcher *)

Lemma dispatch_loop_unfold (fuel : nat) (lines : list str) (i : nat)
      (all_questions : list question) :
  dispatch_loop (S fuel) lines i all_questions
  = if i <? length lines then
      match header_kind (strip (line_at lines i)) with
      | Some k =>
          do (qs, i') <- section_parser k lines (i + 1);
          dispatch_loop fuel lines i' (all_questions ++ qs)
      | None => dispatch_loop fuel lines (S i) all_questions
      end
    else Some all_questions.
Proof.
  cbn [dispatch_loop]. destruct (i <? length lines); [|reflexivity].
  cbv zeta. destruct (strip (line_at lines i)) as [|c l] eqn:E.
  - reflexivity.
  - cbn [blank]. unfold header_kind.
    destruct (matches_ic multiple_choice_re (c :: l)); [reflexivity|].
    destruct (matches_ic true_or_false_re (c :: l)); [reflexivity|].
    destruct (matches_ic short_answer_re (c :: l)); [reflexivity|].
    destruct (matches_ic long_answer_re (c :: l)); reflexivity.
Qed.

Lemma dispatch_loop_scan (lines : list str) :
  forall fuel i all_questions,
  length lines - i < fuel ->
  exists tr, scan lines i tr
    /\ dispatch_loop fuel lines i all_questions
       = Some (all_questions ++ gathered tr).
Proof.
  induction fuel as [|fuel IH]; intros i acc Hf; [lia|].
  rewrite dispatch_loop_unfold.
  destruct (i <? length lines) eqn:Hi;
    [apply Nat.ltb_lt in Hi|apply Nat.ltb_ge in Hi].
  2: { exists []. split; [now constructor|]. unfold gathered. simpl.
       now rewrite app_nil_r. }
  destruct (header_kind (strip (line_at lines i))) as [k|] eqn:Hk.
  - destruct (section_parser_spec lines k (i + 1))
      as (qs & r & E & L1 & L2 & _).
    rewrite E.
    destruct (IH r (acc ++ qs) ltac:(lia)) as (tr & Hs & Hd).
    eexists (_ :: tr). split.
    + eapply scan_section; eauto.
    + rewrite Hd. unfold gathered. simpl. now rewrite app_assoc.
  - destruct (IH (S i) acc ltac:(lia)) as (tr & Hs & Hd).
    exists tr. split; [|exact Hd].
    now apply scan_skip.
Qed.

Lemma scan_ordered (lines : list str) (i : nat) (tr : list invocation) :
  scan lines i tr ->
  ordered_from i tr /\ Forall (in_range_questions lines) tr.
Proof.
  induction 1 as [i Hi|i tr Hi Hk Hs [IH1 IH2]|i k qs r tr Hi Hk E Hs [IH1 IH2]].
  - split; constructor.
  - split; [|exact IH2].
    destruct tr as [|s tr]; [exact I|].
    destruct IH1 as (A & B & C). simpl. repeat split; auto. lia.
  - destruct (section_parser_spec lines k (i + 1))
      as (qs' & r' & E' & L1 & L2 & F & _).
    rewrite E in E'. injection E' as <- <-.
    split.
    + simpl. repeat split; auto. lia.
    + constructor; [exact F|exact IH2].
Qed.

(** Without a header there is nothing to dispatch. *)
Lemma dispatch_loop_no_header (lines : list str) :
  Forall (fun l => header_kind (strip l) = None) lines ->
  forall fuel i all_questions,
  length lines - i < fuel ->
  dispatch_loop fuel lines i all_questions = Some all_questions.
Proof.
  intro H. rewrite Forall_forall in H.
  induction fuel as [|fuel IH]; intros i acc Hf; [lia|].
  rewrite dispatch_loop_unfold.
  destruct (i <? length lines) eqn:Hi; [apply Nat.ltb_lt in Hi|reflexivity].
  rewrite (H (line_at lines i)) by (apply nth_In; exact Hi).
  apply IH. lia.
Qed.

(** ** Lines in front of the cursor

    A parser started at index [S i] of [h :: lines] behaves as the parser
    started at index [i] of [lines]: lines before the cursor are never
    read. *)

Section Shift.
Variable h : str.
Variable lines : list str.

Lemma option_loop_shift : forall fuel i option_count opts,
  option_loop fuel (h :: lines) (S i) option_count opts
  = shifted (option_loop fuel lines i option_count opts).
Proof.
  induction fuel as [|fuel IH]; intros i cnt opts; [reflexivity|].
  cbn [option_loop].
  change (S i <? length (h :: lines)) with (i <? length lines).
  change (line_at (h :: lines) (S i)) with (line_at lines i).
  destruct ((i <? length lines) && (cnt <? 4)); [|reflexivity].
  cbv zeta.
  destruct (blank (strip (line_at lines i))); [apply IH|].
  destruct (option_match (strip (line_at lines i))) as [[a g]|];
    [apply IH|reflexivity].
Qed.

Lemma mcq_loop_shift : forall fuel i questions,
  mcq_loop fuel (h :: lines) (S i) questions
  = shifted (mcq_loop fuel lines i questions).
Proof.
  induction fuel as [|fuel IH]; intros i acc; [reflexivity|].
  cbn [mcq_loop].
  change (S i <? length (h :: lines)) with (i <? length lines).
  change (line_at (h :: lines) (S i)) with (line_at lines i).
  destruct (i <? length lines); [|reflexivity].
  cbv zeta.
  destruct (blank (strip (line_at lines i))); [apply IH|].
  destruct (matches_ic mcq_terminators (strip (line_at lines i)));
    [reflexivity|].
  destruct (question_match (strip (line_at lines i))) as [[q_num g2]|];
    [|apply IH].
  change (fuel_from (h :: lines) (S (S i))) with (fuel_from lines (S i)).
  rewrite option_loop_shift.
  destruct (option_loop (fuel_from lines (S i)) lines (S i) 0 [])
    as [[opts i']|]; [apply IH|reflexivity].
Qed.

Lemma plain_loop_shift (t : regex) (ty : qtype) : forall fuel i questions,
  plain_loop t ty fuel (h :: lines) (S i) questions
  = shifted (plain_loop t ty fuel lines i questions).
Proof.
  induction fuel as [|fuel IH]; intros i acc; [reflexivity|].
  cbn [plain_loop].
  change (S i <? length (h :: lines)) with (i <? length lines).
  change (line_at (h :: lines) (S i)) with (line_at lines i).
  destruct (i <? length lines); [|reflexivity].
  cbv zeta.
  destruct (blank (strip (line_at lines i))); [apply IH|].
  destruct (matches_ic t (strip (line_at lines i))); [reflexivity|].
  destruct (question_match (strip (line_at lines i))) as [[q_num g2]|];
    apply IH.
Qed.

Lemma skip_first_blank_shift (start : nat) :
  skip_first_blank (h :: lines) (S start)
  = S (skip_first_blank lines start).
Proof.
  unfold skip_first_blank.
  change (S start <? length (h :: lines)) with (start <? length lines).
  change (line_at (h :: lines) (S start)) with (line_at lines start).
  destruct ((start <? length lines)
            && blank (strip (line_at lines start))); reflexivity.
Qed.

Lemma section_parser_shift (k : qtype) (start : nat) :
  section_parser k (h :: lines) (S start)
  = shifted (section_parser k lines start).
Proof.
  destruct k; simpl; unfold parse_mcq_section, parse_true_false_section,
    parse_short_answer_section, parse_long_answer_section, plain_section;
    cbv zeta; rewrite skip_first_blank_shift;
    change (fuel_from (h :: lines) (S (skip_first_blank lines start)))
      with (fuel_from lines (skip_first_blank lines start)).
  - apply mcq_loop_shift.
  - apply plain_loop_shift.
  - apply plain_loop_shift.
  - apply plain_loop_shift.
Qed.

Lemma dispatch_loop_shift : forall fuel i all_questions,
  dispatch_loop fuel (h :: lines) (S i) all_questions
  = dispatch_loop fuel lines i all_questions.
Proof.
  induction fuel as [|fuel IH]; intros i acc; [reflexivity|].
  rewrite !dispatch_loop_unfold.
  change (S i <? length (h :: lines)) with (i <? length lines).
  change (line_at (h :: lines) (S i)) with (line_at lines i).
  destruct (i <? length lines); [|reflexivity].
  destruct (header_kind (strip (line_at lines i))) as [k|]; [|apply IH].
  change (S i + 1) with (S (i + 1)). rewrite section_parser_shift.
  destruct (section_parser k lines (i + 1)) as [[qs r]|];
    [apply IH|reflexivity].
Qed.

(** What the dispatcher does with an input whose first line is a
    header: only the kind of the header matters. *)
Lemma parse_lines_headed (k : qtype) :
  header_kind (strip h) = Some k ->
  parse_lines (h :: lines)
  = do (qs, r) <- section_parser k lines 0;
    dispatch_loop (S (length lines)) lines r qs.
Proof.
  intro Hk. unfold parse_lines.
  change (fuel_from (h :: lines) 0) with (S (S (length lines))).
  rewrite dispatch_loop_unfold.
  change (0 <? length (h :: lines)) with true.
  change (line_at (h :: lines) 0) with h. cbv iota. rewrite Hk.
  change (0 + 1) with 1. rewrite section_parser_shift.
  destruct (section_parser k lines 0) as [[qs r]|]; [|reflexivity].
  cbn [shifted app]. apply dispatch_loop_shift.
Qed.
End Shift.

(** ** Normalization *)

Lemma lstrip_fixed (s : str) :
  starts_with is_space s = false -> lstrip s = s.
Proof.
  destruct s as [|c s]; simpl; [reflexivity|]. now intros ->.
Qed.

Lemma lstrip_starts (s : str) : starts_with is_space (lstrip s) = false.
Proof.
  pose proof (lstrip_head s) as H.
  destruct (lstrip s); [reflexivity|exact H].
Qed.

Lemma strip_idempotent (s : str) : strip (strip s) = strip s.
Proof.
  unfold strip, rstrip.
  set (y := lstrip s). set (z := lstrip (rev y)).
  assert (lstrip (rev z) = rev z) as E.
  { apply lstrip_fixed.
    destruct (lstrip_split (rev y)) as [w [Hy _]]. fold z in Hy.
    apply (f_equal (@rev ascii)) in Hy.
    rewrite rev_involutive, rev_app_distr in Hy.
    pose proof (lstrip_starts s) as Hs. fold y in Hs. rewrite Hy in Hs.
    destruct (rev z) as [|c r]; [reflexivity|exact Hs]. }
  rewrite E, rev_involutive.
  rewrite (lstrip_fixed z); [reflexivity|apply lstrip_starts].
Qed.

Lemma is_newline_newline : is_newline newline = true.
Proof. reflexivity. Qed.

Lemma collapse_from_prefix (h s : str) :
  forallb no_newline h = true ->
  collapse_from false (h ++ newline :: s)
  = h ++ newline :: collapse_from true s.
Proof.
  induction h as [|c h IH]; intro H; [reflexivity|].
  simpl in *. apply andb_prop in H as [Hc Hh].
  unfold no_newline in Hc. apply negb_true_iff in Hc. rewrite Hc.
  now rewrite IH.
Qed.

Lemma split_lines_prefix (h s : str) :
  forallb no_newline h = true ->
  split_lines (h ++ newline :: s) = h :: split_lines s.
Proof.
  induction h as [|c h IH]; intro H; [reflexivity|].
  simpl in *. apply andb_prop in H as [Hc Hh].
  unfold no_newline in Hc. apply negb_true_iff in Hc. rewrite Hc.
  now rewrite IH.
Qed.

Lemma normalize_lines_headed (h body : str) :
  forallb no_newline h = true ->
  normalize_lines (h ++ newline :: body) = strip h :: following_lines body.
Proof.
  intro H. unfold normalize_lines, collapse_newlines.
  rewrite collapse_from_prefix, split_lines_prefix by exact H.
  reflexivity.
Qed.

Lemma split_lines_nonempty (s : str) : split_lines s <> [].
Proof.
  destruct s as [|c s]; simpl; [discriminate|].
  destruct (is_newline c); [discriminate|].
  destruct (split_lines s); discriminate.
Qed.

Lemma split_lines_collapse (s : str) :
  split_lines (collapse_from false s) = retained_lines (split_lines s)
  /\ split_lines (collapse_from true s)
     = drop_empty_but_last (split_lines s).
Proof.
  induction s as [|c s [IH1 IH2]]; [split; reflexivity|].
  cbn [collapse_from split_lines].
  destruct (is_newline c) eqn:Hc.
  - split.
    + cbn [split_lines]. rewrite is_newline_newline, IH2. reflexivity.
    + rewrite IH2. cbn [drop_empty_but_last blank].
      pose proof (split_lines_nonempty s).
      destruct (split_lines s); [congruence|reflexivity].
  - cbn [split_lines]. rewrite Hc, IH1.
    destruct (split_lines s) as [|l ls]; [split; reflexivity|].
    cbn [retained_lines drop_empty_but_last blank].
    split; [reflexivity|].
    destruct ls; reflexivity.
Qed.

Lemma drop_empty_but_last_length (ls : list str) :
  length (drop_empty_but_last ls) <= length ls.
Proof.
  induction ls as [|l [|l' ls] IH]; simpl in *; auto.
  destruct (blank l); simpl in *; lia.
Qed.

Lemma gathered_Forall (P : question -> Prop) (tr : list invocation) :
  Forall (fun s => Forall P (inv_questions s)) tr -> Forall P (gathered tr).
Proof.
  unfold gathered. induction 1 as [|s tr Hs _ IH]; simpl; [constructor|].
  apply Forall_app. now split.
Qed.

Lemma parse_lines_scan (lines : list str) :
  exists tr, scan lines 0 tr /\ parse_lines lines = Some (gathered tr).
Proof.
  unfold parse_lines.
  destruct (@dispatch_loop_scan lines (fuel_from lines 0) 0 [])
    as (tr & Hs & Hd); [unfold fuel_from; lia|].
  exists tr. split; [exact Hs|exact Hd].
Qed.

Lemma parse_lines_no_header (lines : list str) :
  Forall (fun l => header_kind (strip l) = None) lines ->
  parse_lines lines = Some [].
Proof.
  intro H. unfold parse_lines. apply dispatch_loop_no_header; [exact H|].
  unfold fuel_from. lia.
Qed.

Lemma collapse_spaces (b : bool) (s : str) :
  forallb is_space s = true -> forallb is_space (collapse_from b s) = true.
Proof.
  revert b. induction s as [|c s IH]; intros b H; [reflexivity|].
  simpl in *. apply andb_prop in H as [Hc Hs].
  destruct (is_newline c); [destruct b|]; cbn [forallb].
  - now apply IH.
  - change (is_space newline) with true. now apply IH.
  - rewrite Hc. now apply IH.
Qed.

Lemma split_lines_spaces (s : str) :
  forallb is_space s = true ->
  Forall (fun l => forallb is_space l = true) (split_lines s).
Proof.
  induction s as [|c s IH]; intro H; [repeat constructor|].
  simpl in *. apply andb_prop in H as [Hc Hs]. specialize (IH Hs).
  destruct (is_newline c); [constructor; [reflexivity|exact IH]|].
  destruct (split_lines s) as [|l ls]; [repeat constructor; simpl; now rewrite Hc|].
  inversion IH; subst. constructor; [simpl; now rewrite Hc|assumption].
Qed.

(** * The claims *)

(** ** The scenarios of the specification *)

(** Scenario A: one MCQ question, number ["1"], options a, b, c, d. *)
Example scenario_a :
  let text :=
    lit "Multiple Choice Questions:" ++ newline ::
    lit "1. What is 2+2?" ++ newline :: lit "a. 3" ++ newline ::
    lit "b. 4" ++ newline :: lit "c. 5" ++ newline :: lit "d. 6" ++ [newline] in
  option_map (map (fun q => (number q, type q, map letter (options q))))
             (parse_questionnaire text)
  = Some [(lit "1", mcq, [lit "a"; lit "b"; lit "c"; lit "d"])].
Proof. reflexivity. Qed.

(** Scenario B: two true/false questions without options. *)
Example scenario_b :
  let text :=
    lit "True or False:" ++ newline :: lit "1. The sky is blue." ++ newline ::
    lit "2. Fish can fly." ++ [newline] in
  parse_questionnaire text
  = Some [{| number := lit "1"; text := lit "1. The sky is blue.";
             type := true_false; options := [] |};
          {| number := lit "2"; text := lit "2. Fish can fly.";
             type := true_false; options := [] |}].
Proof. reflexivity. Qed.

(** ** C3 *)

Lemma emitted_options_within_bounds lines k lo hi q :
  emitted lines k lo hi q -> options_within_bounds q.
Proof.
  intros (j & g & _ & _ & _ & Hty & Hlen & Hno & _).
  unfold options_within_bounds. rewrite Hty.
  destruct k; try lia; rewrite Hno; try reflexivity; discriminate.
Qed.

(** C3. For every input text, [parse_questionnaire] returns a list of
    questions in which a question of type [mcq] has between 0 and 4
    options and a question of type [true_false], [short_answer] or
    [long_answer] has none. *)
Theorem options_bound (text : str) :
  exists qs, parse_questionnaire text = Some qs
             /\ Forall options_within_bounds qs.
Proof.
  unfold parse_questionnaire.
  destruct (parse_lines_scan (normalize_lines text)) as (tr & Hs & E).
  exists (gathered tr). split; [exact E|].
  apply gathered_Forall.
  apply scan_ordered in Hs as [_ F].
  eapply Forall_impl; [|exact F].
  intros s Hq. eapply Forall_impl; [|exact Hq].
  intro q. apply emitted_options_within_bounds.
Qed.

(** ** C10 *)

Lemma section_parser_resumes (k : qtype) : resumes_within (section_parser k).
Proof.
  intros lines start H.
  destruct (section_parser_spec lines k start) as (qs & r & E & L1 & L2 & _).
  exists qs, r. split; [exact E|]. split; [exact L1|auto].
Qed.

(** C10. Each of the four section parsers, started at an index between 0
    and the number of lines, returns (it does not run out of fuel) a
    resume index between the start index and the number of lines; a
    parser called by the dispatcher for the header at line [i] therefore
    resumes strictly after [i]; and [parse_questionnaire] returns on every
    text. *)
Theorem resume_index_bounds :
  resumes_within parse_mcq_section
  /\ resumes_within parse_true_false_section
  /\ resumes_within parse_short_answer_section
  /\ resumes_within parse_long_answer_section
  /\ (forall k lines i, i < length lines ->
        exists qs r, section_parser k lines (i + 1) = Some (qs, r)
                     /\ i < r <= length lines)
  /\ (forall text, exists qs, parse_questionnaire text = Some qs).
Proof.
  repeat split.
  - exact (section_parser_resumes mcq).
  - exact (section_parser_resumes true_false).
  - exact (section_parser_resumes short_answer).
  - exact (section_parser_resumes long_answer).
  - intros k lines i Hi.
    destruct (@section_parser_resumes k lines (i + 1) ltac:(lia))
      as (qs & r & E & L).
    exists qs, r. split; [exact E|lia].
  - intro text. unfold parse_questionnaire.
    destruct (parse_lines_scan (normalize_lines text)) as (tr & _ & E).
    now exists (gathered tr).
Qed.

Lemma resume_index_bounds_witness :
  exists qs r,
    parse_mcq_section [lit "1. Pick one"; lit "a. this"; lit "b. that"] 0
    = Some (qs, r)
    /\ 0 <= r <= 3.
Proof.
  apply (proj1 resume_index_bounds). simpl. lia.
Defined.

(** ** C9 *)

(** C9. [parse_questionnaire] returns the empty list, and does return, on
    the empty text, on any text made of white space only, and on any text
    none of whose normalized lines is a section header. *)
Theorem no_header_no_questions :
  parse_questionnaire [] = Some []
  /\ (forall text, forallb is_space text = true ->
                   parse_questionnaire text = Some [])
  /\ (forall text,
        Forall (fun l => header_kind (strip l) = None) (normalize_lines text) ->
        parse_questionnaire text = Some []).
Proof.
  split; [reflexivity|]. split.
  - intros text H. apply parse_lines_no_header.
    unfold normalize_lines, collapse_newlines.
    apply Forall_map.
    eapply Forall_impl;
      [|exact (split_lines_spaces _ (collapse_spaces false _ H))].
    intros l Hl. simpl. rewrite strip_idempotent, (strip_spaces _ Hl).
    reflexivity.
  - intros text H. now apply parse_lines_no_header.
Qed.

Lemma no_header_no_questions_witness :
  parse_questionnaire (lit "Notes from the lecture, page 3") = Some [].
Proof.
  apply (proj2 (proj2 no_header_no_questions)).
  repeat constructor.
Defined.

(** ** C8 *)

(** C8. When both extraction back ends fail, [extract_text_from_pdf]
    returns the sentinel sentence; no normalized line of the sentinel is a
    section header, so [parse_questionnaire] treats it as any header-free
    text and returns the empty list. *)
Theorem extraction_sentinel_is_plain_text :
  extract_text_from_pdf None None = EXTRACTION_FAILED
  /\ Forall (fun l => header_kind (strip l) = None)
            (normalize_lines EXTRACTION_FAILED)
  /\ parse_questionnaire EXTRACTION_FAILED = Some []
  /\ parse_questionnaire (extract_text_from_pdf None None) = Some [].
Proof.
  assert (Forall (fun l => header_kind (strip l) = None)
                 (normalize_lines EXTRACTION_FAILED)) as H
    by (repeat constructor).
  split; [reflexivity|]. split; [exact H|].
  split; apply parse_lines_no_header; exact H.
Qed.

(** ** C6 *)



(** ** C7 *)




(** ** C2 *)

(** C2 as stated fails: the empty line between ["a"] and ["b"] has no
    entry in the normalized sequence, and ["b"] moves from index 2 to
    index 1. *)
Lemma normalize_lines_drops_empty_line :
  let text := lit "a" ++ [newline; newline] ++ lit "b" in
  split_lines text = [lit "a"; []; lit "b"]
  /\ normalize_lines text = [lit "a"; lit "b"]
  /\ length (normalize_lines text) <> length (split_lines text).
Proof.
  repeat split. discriminate.
Qed.

(** C2, amended. The normalized sequence holds, trimmed and in order, the
    first line of the text, its last line and every line in between that
    has at least one character (a line of white space stays as an empty
    string); the empty lines strictly between the first and the last line
    are deleted, so the sequence is never longer than the text's lines. *)
Theorem normalize_lines_retained (text : str) :
  normalize_lines text = map strip (retained_lines (split_lines text))
  /\ length (normalize_lines text) <= length (split_lines text).
Proof.
  unfold normalize_lines, collapse_newlines.
  rewrite (proj1 (split_lines_collapse text)). split; [reflexivity|].
  rewrite length_map.
  destruct (split_lines text) as [|l ls]; simpl; [lia|].
  pose proof (drop_empty_but_last_length ls). lia.
Qed.

(** ** C4 *)

Lemma qtype_eqb_eq (a b : qtype) : qtype_eqb a b = true <-> a = b.
Proof. destruct a, b; simpl; split; congruence. Qed.



Lemma emitted_type lines k lo hi q : emitted lines k lo hi q -> type q = k.
Proof. intros (j & g & _ & _ & _ & H & _). exact H. Qed.


(** Two "True or False" blocks around a "Short Answer" block. *)
Example split_true_false_blocks :
  let text :=
    lit "True or False" ++ newline :: lit "1. A" ++ newline ::
    lit "Short Answer" ++ newline :: lit "2. B" ++ newline ::
    lit "TRUE OR FALSE" ++ newline :: lit "3. C" in
  option_map (map (fun q => (number q, type q))) (parse_questionnaire text)
  = Some [(lit "1", true_false); (lit "2", short_answer);
          (lit "3", true_false)].
Proof. reflexivity. Qed.

(** ** C1 *)

Lemma question_line_facts (line : str) (x : str * str) :
  question_match (strip line) = Some x ->
  blank (strip line) = false
  /\ matches_ic mcq_terminators (strip line) = false.
Proof.
  intro H. split.
  - destruct (strip line); [discriminate|reflexivity].
  - change mcq_terminators with (terminators mcq).
    apply header_not_terminator.
    eapply question_line_not_header. exact H.
Qed.

Lemma option_line_not_blank (line : str) (x : str * str) :
  option_match (strip line) = Some x -> blank (strip line) = false.
Proof.
  intro H. destruct (strip line); [discriminate|reflexivity].
Qed.

(** Scenario C on the lines after the header. *)
Lemma mcq_two_options_body (q o1 o2 q2 n b l1 g1 l2 g2 n2 b2 : str) :
  question_match (strip q) = Some (n, b) ->
  option_match (strip o1) = Some (l1, g1) ->
  option_match (strip o2) = Some (l2, g2) ->
  question_match (strip q2) = Some (n2, b2) ->
  option_match (strip q2) = None ->
  parse_mcq_section [q; o1; o2; q2] 0
  = Some ([{| number := n; text := dot_join n (strip b); type := mcq;
              options :=
                [{| letter := l1; option_text := dot_join l1 (strip g1) |};
                 {| letter := l2; option_text := dot_join l2 (strip g2) |}]
           |};
           {| number := n2; text := dot_join n2 (strip b2); type := mcq;
              options := [] |}], 4).
Proof.
  intros Hq Ho1 Ho2 Hq2 Hno.
  destruct (@question_line_facts q _ Hq) as [Bq Tq].
  destruct (@question_line_facts q2 _ Hq2) as [Bq2 Tq2].
  pose proof (@option_line_not_blank o1 _ Ho1) as Bo1.
  pose proof (@option_line_not_blank o2 _ Ho2) as Bo2.
  unfold parse_mcq_section, skip_first_blank.
  cbn [length Nat.ltb Nat.leb line_at nth andb]. rewrite Bq.
  cbn [mcq_loop fuel_from length Nat.sub Nat.ltb Nat.leb line_at nth].
  cbv zeta. rewrite Bq, Tq, Hq.
  cbn [option_loop fuel_from length Nat.sub Nat.ltb Nat.leb line_at nth andb].
  cbv zeta. rewrite Bo1, Ho1, Bo2, Ho2, Bq2, Hno.
  cbn [app]. rewrite Bq2, Tq2, Hq2.
  reflexivity.
Qed.

(** C1 as stated fails when the new question is numbered 1 to 4: the line
    ["2. Next?"] matches the option pattern, so it becomes a third option
    of question 1 and no second question is returned. *)
Lemma mcq_numbered_question_taken_as_option :
  let lines := [lit "Multiple Choice"; lit "1. Q?"; lit "a. x"; lit "b. y";
                lit "2. Next?"] in
  question_match (strip (line_at lines 1)) = Some (lit "1", lit "Q?")
  /\ option_match (strip (line_at lines 2)) = Some (lit "a", lit "x")
  /\ option_match (strip (line_at lines 3)) = Some (lit "b", lit "y")
  /\ question_match (strip (line_at lines 4)) = Some (lit "2", lit "Next?")
  /\ parse_mcq_section lines 1
     = Some ([{| number := lit "1"; text := lit "1. Q?"; type := mcq;
                 options :=
                   [{| letter := lit "a"; option_text := lit "a. x" |};
                    {| letter := lit "b"; option_text := lit "b. y" |};
                    {| letter := lit "2"; option_text := lit "2. Next?" |}]
              |}], 5).
Proof.
  repeat split.
Qed.

(** C1, amended. On an MCQ header, a question line, two lines that match
    the option pattern and a new question line that does not itself match
    the option pattern, [parse_mcq_section] returns the first question
    with exactly these two options, then the new question (with no
    option), and the resume index 5; [parse_lines] returns the same two
    questions when the first line is a multiple-choice header. *)
Theorem mcq_two_options_then_question
        (hdr q o1 o2 q2 n b l1 g1 l2 g2 n2 b2 : str) :
  question_match (strip q) = Some (n, b) ->
  option_match (strip o1) = Some (l1, g1) ->
  option_match (strip o2) = Some (l2, g2) ->
  question_match (strip q2) = Some (n2, b2) ->
  option_match (strip q2) = None ->
  let first :=
    {| number := n; text := dot_join n (strip b); type := mcq;
       options :=
         [{| letter := l1; option_text := dot_join l1 (strip g1) |};
          {| letter := l2; option_text := dot_join l2 (strip g2) |}] |} in
  let second :=
    {| number := n2; text := dot_join n2 (strip b2); type := mcq;
       options := [] |} in
  parse_mcq_section [hdr; q; o1; o2; q2] 1 = Some ([first; second], 5)
  /\ (header_kind (strip hdr) = Some mcq ->
      parse_lines [hdr; q; o1; o2; q2] = Some [first; second]).
Proof.
  intros Hq Ho1 Ho2 Hq2 Hno first second.
  pose proof (@mcq_two_options_body q o1 o2 q2 _ _ _ _ _ _ _ _
                Hq Ho1 Ho2 Hq2 Hno) as E.
  split.
  - change parse_mcq_section with (section_parser mcq).
    rewrite section_parser_shift. simpl section_parser. rewrite E.
    reflexivity.
  - intro Hh. rewrite (@parse_lines_headed hdr _ mcq Hh).
    simpl section_parser. rewrite E. reflexivity.
Qed.

Lemma mcq_two_options_then_question_witness :
  parse_mcq_section
    [lit "Multiple Choice"; lit "1. Q?"; lit "a. x"; lit "b. y";
     lit "12. Next?"] 1
  = Some ([{| number := lit "1"; text := lit "1. Q?"; type := mcq;
              options :=
                [{| letter := lit "a"; option_text := lit "a. x" |};
                 {| letter := lit "b"; option_text := lit "b. y" |}] |};
           {| number := lit "12"; text := lit "12. Next?"; type := mcq;
              options := [] |}], 5).
Proof.
  apply (@mcq_two_options_then_question
           (lit "Multiple Choice") (lit "1. Q?") (lit "a. x") (lit "b. y")
           (lit "12. Next?")
           (lit "1") (lit "Q?") (lit "a") (lit "x") (lit "b") (lit "y")
           (lit "12") (lit "Next?")); reflexivity.
Defined.

(** * Further properties of the code *)

From Stdlib Require Import Permutation.

Unset Implicit Arguments.

(** ** The loops as one pass *)

Lemma skipn_line (lines : list str) : forall i,
  i < length lines -> skipn i lines = line_at lines i :: skipn (S i) lines.
Proof.
  induction lines as [|l lines IH]; intros [|i] H; simpl in *; try lia.
  - reflexivity.
  - apply IH. lia.
Qed.

Lemma skipn_end (lines : list str) (i : nat) :
  length lines <= i -> skipn i lines = [].
Proof. apply skipn_all2. Qed.

Lemma blank_not_terminator (k : qtype) (l : str) :
  matches_ic (terminators k) l = true -> blank l = false.
Proof.
  destruct l; [|reflexivity]. destruct k; discriminate.
Qed.

Section Pass.
Variable lines : list str.

Lemma plain_loop_pass (k : qtype) :
  k <> mcq ->
  forall fuel i acc A res r,
  plain_loop (terminators k) k fuel lines i acc = Some (res, r) ->
  fold_left step (skipn i lines) (InSection k, A ++ acc)
  = fold_left step (skipn r lines) (InSection k, A ++ res).
Proof.
  intro Hk.
  assert (qtype_eqb k mcq = false) as Hkb
    by (destruct k; [exfalso; now apply Hk|reflexivity..]).
  induction fuel as [|fuel IH]; intros i acc A res r; [discriminate|].
  cbn [plain_loop].
  destruct (i <? length lines) eqn:Hi;
    [apply Nat.ltb_lt in Hi|intro E; injection E as <- <-; reflexivity].
  cbv zeta. rewrite (skipn_line lines _ Hi). cbn [fold_left step].
  unfold section_step.
  destruct (blank (strip (line_at lines i))); [apply IH|].
  destruct (matches_ic (terminators k) (strip (line_at lines i))) eqn:Ht.
  { intro E. injection E as <- <-.
    rewrite (skipn_line lines _ Hi). cbn [fold_left step].
    unfold section_step.
    rewrite (blank_not_terminator _ _ Ht), Ht. reflexivity. }
  destruct (question_match (strip (line_at lines i))) as [[q_num g2]|];
    [|apply IH].
  rewrite Hkb. intro E. rewrite <- app_assoc. exact (IH _ _ _ _ _ E).
Qed.

Lemma option_loop_pass (q_num g2 : str) (X : list question) :
  forall fuel i opts res r,
  length opts < 4 ->
  option_loop fuel lines i (length opts) opts = Some (res, r) ->
  finish (fold_left step (skipn i lines) (InOptions q_num g2 opts, X))
  = finish (fold_left step (skipn r lines)
              (InSection mcq, X ++ [make_question q_num g2 mcq res])).
Proof.
  induction fuel as [|fuel IH]; intros i opts res r Hc; [discriminate|].
  cbn [option_loop].
  destruct (i <? length lines) eqn:Hi;
    [apply Nat.ltb_lt in Hi|apply Nat.ltb_ge in Hi].
  2: { cbn [andb]. intro E. injection E as <- <-.
       rewrite (skipn_end lines _ Hi). reflexivity. }
  apply Nat.ltb_lt in Hc. rewrite Hc. apply Nat.ltb_lt in Hc.
  cbn [andb]. cbv zeta.
  rewrite (skipn_line lines _ Hi). cbn [fold_left step].
  destruct (blank (strip (line_at lines i))) eqn:Hb; [apply IH; exact Hc|].
  destruct (option_match (strip (line_at lines i))) as [[opt_num o2]|] eqn:Hm.
  - fold (make_option opt_num o2). cbv zeta.
    destruct (length (opts ++ [make_option opt_num o2]) <? 4) eqn:H4.
    + apply Nat.ltb_lt in H4. intro E. apply IH; [exact H4|].
      rewrite length_app, Nat.add_1_r. exact E.
    + apply Nat.ltb_ge in H4. rewrite length_app in H4. simpl in H4.
      destruct fuel as [|fuel']; [discriminate|].
      cbn [option_loop].
      assert ((S (length opts) <? 4) = false) as -> by (apply Nat.ltb_ge; lia).
      rewrite andb_false_r. intro E. injection E as <- <-. reflexivity.
  - intro E. injection E as <- <-.
    rewrite (skipn_line lines _ Hi). cbn [fold_left step]. reflexivity.
Qed.

Lemma mcq_loop_pass :
  forall fuel i acc A res r,
  mcq_loop fuel lines i acc = Some (res, r) ->
  finish (fold_left step (skipn i lines) (InSection mcq, A ++ acc))
  = finish (fold_left step (skipn r lines) (InSection mcq, A ++ res)).
Proof.
  induction fuel as [|fuel IH]; intros i acc A res r; [discriminate|].
  cbn [mcq_loop].
  destruct (i <? length lines) eqn:Hi;
    [apply Nat.ltb_lt in Hi|intro E; injection E as <- <-; reflexivity].
  cbv zeta.
  destruct (blank (strip (line_at lines i))) eqn:Hb.
  { rewrite (skipn_line lines _ Hi). cbn [fold_left step].
    unfold section_step. rewrite Hb. apply IH. }
  destruct (matches_ic mcq_terminators (strip (line_at lines i))) eqn:Ht;
    [intro E; injection E as <- <-; reflexivity|].
  rewrite (skipn_line lines _ Hi). cbn [fold_left step].
  unfold section_step. rewrite Hb. cbn [terminators]. rewrite Ht.
  destruct (question_match (strip (line_at lines i))) as [[q_num g2]|];
    [|apply IH].
  cbn [qtype_eqb].
  destruct (option_loop (fuel_from lines (S i)) lines (S i) 0 [])
    as [[opts i']|] eqn:Eo; [|discriminate].
  intro E.
  rewrite (option_loop_pass q_num g2 (A ++ acc)
             (fuel_from lines (S i)) (S i) [] opts i');
    [|simpl; lia|exact Eo].
  rewrite <- app_assoc. apply IH. exact E.
Qed.

Lemma skip_first_blank_pass (k : qtype) (X : list question) (start : nat) :
  fold_left step (skipn start lines) (InSection k, X)
  = fold_left step (skipn (skip_first_blank lines start) lines)
                   (InSection k, X).
Proof.
  unfold skip_first_blank.
  destruct (start <? length lines) eqn:Hs; [|reflexivity].
  apply Nat.ltb_lt in Hs. cbn [andb].
  destruct (blank (strip (line_at lines start))) eqn:Hb; [|reflexivity].
  rewrite (skipn_line lines _ Hs). cbn [fold_left step].
  unfold section_step. now rewrite Hb.
Qed.

Lemma section_parser_pass (k : qtype) (A qs : list question)
      (start r : nat) :
  section_parser k lines start = Some (qs, r) ->
  finish (fold_left step (skipn start lines) (InSection k, A))
  = finish (fold_left step (skipn r lines) (InSection k, A ++ qs)).
Proof.
  intro E. rewrite skip_first_blank_pass.
  rewrite <- (app_nil_r A) at 1.
  destruct k; simpl in E.
  - exact (mcq_loop_pass _ _ _ A _ _ E).
  - f_equal.
    exact (plain_loop_pass true_false ltac:(discriminate) _ _ _ A _ _ E).
  - f_equal.
    exact (plain_loop_pass short_answer ltac:(discriminate) _ _ _ A _ _ E).
  - f_equal.
    exact (plain_loop_pass long_answer ltac:(discriminate) _ _ _ A _ _ E).
Qed.

Lemma leave_section_pass (k : qtype) (X : list question) (r : nat) :
  stopped_at lines k r ->
  finish (fold_left step (skipn r lines) (InSection k, X))
  = finish (fold_left step (skipn r lines) (Top, X)).
Proof.
  intro H. destruct (Nat.lt_ge_cases r (length lines)) as [Hr|Hr].
  - specialize (H Hr). rewrite (skipn_line lines _ Hr). cbn [fold_left step].
    unfold section_step.
    now rewrite (blank_not_terminator _ _ H), H.
  - now rewrite (skipn_end lines _ Hr).
Qed.

Lemma top_step_header (acc : list question) (line : str) :
  top_step acc line
  = match header_kind (strip line) with
    | Some k => (InSection k, acc)
    | None => (Top, acc)
    end.
Proof.
  unfold top_step. destruct (strip line); reflexivity.
Qed.

Lemma dispatch_loop_pass :
  forall fuel i all_questions,
  length lines - i < fuel ->
  dispatch_loop fuel lines i all_questions
  = Some (finish (fold_left step (skipn i lines) (Top, all_questions))).
Proof.
  induction fuel as [|fuel IH]; intros i acc Hf; [lia|].
  rewrite dispatch_loop_unfold.
  destruct (i <? length lines) eqn:Hi;
    [apply Nat.ltb_lt in Hi|apply Nat.ltb_ge in Hi].
  2: { now rewrite (skipn_end lines _ Hi). }
  rewrite (skipn_line lines _ Hi). cbn [fold_left step].
  rewrite top_step_header.
  destruct (header_kind (strip (line_at lines i))) as [k|];
    [|apply IH; lia].
  destruct (section_parser_spec lines k (i + 1))
    as (qs & r & E & L1 & L2 & _ & Hstop).
  rewrite E, IH by lia.
  rewrite <- Nat.add_1_r.
  rewrite (section_parser_pass k acc qs _ r E).
  now rewrite (leave_section_pass k _ r Hstop).
Qed.
End Pass.

Lemma parse_lines_one_pass (lines : list str) :
  parse_lines lines = Some (one_pass lines).
Proof.
  unfold parse_lines, one_pass.
  rewrite dispatch_loop_pass by (unfold fuel_from; lia). reflexivity.
Qed.

(** X. [parse_questionnaire]'s nested loops compute exactly what one
    left-to-right pass over the normalized lines computes: every line is
    looked at in one of three states (outside a section, inside a section,
    collecting the options of an MCQ question) and the questions come out
    in the order of their lines. *)
Theorem parse_is_one_pass :
  (forall lines, parse_lines lines = Some (one_pass lines))
  /\ (forall text,
        parse_questionnaire text = Some (one_pass (normalize_lines text))).
Proof.
  split; [exact parse_lines_one_pass|].
  intro text. apply parse_lines_one_pass.
Qed.

(** ** Blank lines *)

Lemma step_blank (st : pass_state) (line : str) :
  blank (strip line) = true -> step st line = st.
Proof.
  intro H. destruct st as [[|k|q_num g2 opts] acc]; cbn [step].
  - unfold top_step. now rewrite H.
  - unfold section_step. now rewrite H.
  - now rewrite H.
Qed.

Lemma fold_step_not_blank (lines : list str) : forall st,
  fold_left step (filter not_blank lines) st = fold_left step lines st.
Proof.
  induction lines as [|l lines IH]; intro st; [reflexivity|].
  cbn [filter fold_left]. unfold not_blank at 1.
  destruct (blank (strip l)) eqn:Hb; cbn [negb].
  - now rewrite (step_blank st l Hb).
  - cbn [fold_left]. apply IH.
Qed.

(** X. Lines that are empty or white space only never change the result:
    removing them from the line sequence gives the same questions. *)
Theorem blank_lines_ignored (lines : list str) :
  parse_lines (filter not_blank lines) = parse_lines lines.
Proof.
  rewrite !parse_lines_one_pass. unfold one_pass.
  now rewrite fold_step_not_blank.
Qed.

(** ** Sections are parsed independently *)

Lemma header_not_question (l : str) (k : qtype) :
  header_kind l = Some k -> question_match l = None.
Proof.
  intro H. destruct (question_match l) as [x|] eqn:E; [|reflexivity].
  rewrite (@question_line_not_header l x E) in H. discriminate.
Qed.

Lemma header_not_blank (l : str) (k : qtype) :
  header_kind l = Some k -> blank l = false.
Proof. destruct l; [discriminate|reflexivity]. Qed.

Lemma section_step_header (k0 k : qtype) (acc : list question) (h : str) :
  header_kind (strip h) = Some k ->
  section_step k0 acc h = (InSection k, acc).
Proof.
  intro H. unfold section_step.
  rewrite (header_not_blank _ _ H).
  destruct (matches_ic (terminators k0) (strip h)) eqn:Ht.
  - now rewrite top_step_header, H.
  - rewrite (header_not_question _ _ H).
    destruct (qtype_eqb k k0) eqn:Ek.
    + apply qtype_eqb_eq in Ek. now subst.
    + assert (matches_ic (terminators k0) (strip h) = true) as Ht'.
      { apply terminator_iff. exists k. split; [exact H|].
        intro Heq. subst k0. destruct k; discriminate Ek. }
      congruence.
Qed.

(** A header line closes whatever was open and opens its section. *)
Lemma step_header (st : pass_state) (h : str) (k : qtype) :
  header_kind (strip h) = Some k ->
  step st h = (InSection k, finish st).
Proof.
  intro H. destruct st as [[|k0|q_num g2 opts] acc]; cbn [step finish].
  - now rewrite top_step_header, H.
  - now apply section_step_header.
  - rewrite (header_not_blank _ _ H), (@header_not_option _ _ H).
    now apply section_step_header.
Qed.

Lemma step_prepend (front : list question) (st : pass_state) (line : str) :
  step (prepend front st) line = prepend front (step st line).
Proof.
  destruct st as [[|k|q_num g2 opts] acc]; unfold prepend;
    cbn [step fst snd]; unfold section_step, top_step;
    repeat match goal with
    | |- context [if ?b then _ else _] => destruct b
    | |- context [match header_kind ?l with _ => _ end] =>
        destruct (header_kind l)
    | |- context [match question_match ?l with _ => _ end] =>
        destruct (question_match l) as [[? ?]|]
    | |- context [match option_match ?l with _ => _ end] =>
        destruct (option_match l) as [[? ?]|]
    end;
    cbn [fst snd]; rewrite <- ?app_assoc; reflexivity.
Qed.

Lemma fold_step_prepend (front : list question) (lines : list str) :
  forall st,
  fold_left step lines (prepend front st)
  = prepend front (fold_left step lines st).
Proof.
  induction lines as [|l lines IH]; intro st; [reflexivity|].
  cbn [fold_left]. now rewrite step_prepend, IH.
Qed.

Lemma finish_prepend (front : list question) (st : pass_state) :
  finish (prepend front st) = front ++ finish st.
Proof.
  destruct st as [[|k|q_num g2 opts] acc]; unfold prepend; cbn;
    try reflexivity.
  now rewrite app_assoc.
Qed.

(** X. A header line resets the parser: the questions of a line sequence
    cut in front of a header line are the questions of the part before
    the header followed by the questions of the part from the header
    on. *)
Theorem sections_independent (before after : list str) (h : str)
        (k : qtype) :
  header_kind (strip h) = Some k ->
  exists qs1 qs2,
    parse_lines before = Some qs1
    /\ parse_lines (h :: after) = Some qs2
    /\ parse_lines (before ++ h :: after) = Some (qs1 ++ qs2).
Proof.
  intro H. exists (one_pass before), (one_pass (h :: after)).
  rewrite !parse_lines_one_pass. repeat split.
  f_equal. unfold one_pass.
  rewrite fold_left_app. cbn [fold_left].
  rewrite !(step_header _ h k H). cbn [finish].
  change (InSection k, finish (fold_left step before (Top, [])))
    with (InSection k, one_pass before).
  rewrite <- (app_nil_r (one_pass before)) at 1.
  change (InSection k, one_pass before ++ [])
    with (prepend (one_pass before) (InSection k, [])).
  now rewrite fold_step_prepend, finish_prepend.
Qed.

Lemma sections_independent_witness :
  exists qs1 qs2,
    parse_lines [lit "True or False"; lit "1. A"] = Some qs1
    /\ parse_lines [lit "true or false:"; lit "2. B"] = Some qs2
    /\ parse_lines ([lit "True or False"; lit "1. A"]
                    ++ lit "true or false:" :: [lit "2. B"])
       = Some (qs1 ++ qs2).
Proof.
  apply (sections_independent _ _ _ true_false). reflexivity.
Defined.

(** X. Lines in front of the first header are ignored. *)
Theorem preamble_ignored (preamble rest : list str) :
  Forall (fun l => header_kind (strip l) = None) preamble ->
  parse_lines (preamble ++ rest) = parse_lines rest.
Proof.
  intro H. rewrite !parse_lines_one_pass. f_equal. unfold one_pass.
  rewrite fold_left_app. f_equal.
  induction H as [|l pre Hl _ IH]; [reflexivity|].
  cbn [fold_left step]. rewrite top_step_header, Hl. exact IH.
Qed.

Lemma preamble_ignored_witness :
  parse_lines ([lit "Name: ______"; lit "3. stray line"]
               ++ [lit "Short Answer"; lit "1. Why?"])
  = parse_lines [lit "Short Answer"; lit "1. Why?"].
Proof.
  apply preamble_ignored. repeat constructor.
Defined.

(** ** One line, at most one question or option *)

Lemma total_weight_app (a b : list question) :
  total_weight (a ++ b) = total_weight a + total_weight b.
Proof.
  unfold total_weight. now rewrite map_app, list_sum_app.
Qed.

Lemma total_weight_count (qs : list question) :
  total_weight qs
  = length qs + list_sum (map (fun q => length (options q)) qs).
Proof.
  unfold total_weight. induction qs as [|q qs IH]; [reflexivity|].
  simpl in *. unfold weight in *. lia.
Qed.

Lemma total_weight_one (n g : str) (ty : qtype) (opts : list option_entry) :
  total_weight [make_question n g ty opts] = S (length opts).
Proof. unfold total_weight, weight. simpl. lia. Qed.

Lemma step_weight (st : pass_state) (line : str) :
  total_weight (finish (step st line))
  <= total_weight (finish st) + 1.
Proof.
  assert (forall k acc,
    total_weight (finish (section_step k acc line))
    <= total_weight acc + 1) as Hsec.
  { intros k acc. unfold section_step, top_step.
    destruct (blank (strip line)); cbn [finish]; [lia|].
    destruct (matches_ic (terminators k) (strip line)).
    { destruct (header_kind (strip line)); cbn [finish]; lia. }
    destruct (question_match (strip line)) as [[n g]|]; cbn [finish]; [|lia].
    destruct (qtype_eqb k mcq); cbn [finish];
      rewrite total_weight_app, total_weight_one; cbn [length]; lia. }
  destruct st as [[|k|q_num g2 opts] acc]; cbn [step].
  - unfold top_step. destruct (blank (strip line)); cbn [finish]; [lia|].
    destruct (header_kind (strip line)); cbn [finish]; lia.
  - apply Hsec.
  - destruct (blank (strip line)); [lia|].
    destruct (option_match (strip line)) as [[o g]|].
    + cbv zeta.
      destruct (length (opts ++ [make_option o g]) <? 4); cbn [finish];
        rewrite !total_weight_app, !total_weight_one, length_app;
        cbn [length]; lia.
    + etransitivity; [apply Hsec|]. cbn [finish].
      rewrite !total_weight_app, !total_weight_one. lia.
Qed.

Lemma fold_step_weight (lines : list str) : forall st,
  total_weight (finish (fold_left step lines st))
  <= total_weight (finish st) + length lines.
Proof.
  induction lines as [|l lines IH]; intro st; cbn [fold_left length]; [lia|].
  etransitivity; [apply IH|]. pose proof (step_weight st l). lia.
Qed.

(** X. Every question and every option is read from a line of its own
    that is not blank: the number of questions plus the number of their
    options is at most the number of non-blank lines. *)
Theorem one_line_each (lines : list str) :
  exists qs,
    parse_lines lines = Some qs
    /\ length qs + list_sum (map (fun q => length (options q)) qs)
       <= length (filter not_blank lines)
    /\ length (filter not_blank lines) <= length lines.
Proof.
  exists (one_pass lines). split; [apply parse_lines_one_pass|].
  split; [|apply filter_length_le].
  rewrite <- total_weight_count. unfold one_pass.
  rewrite <- fold_step_not_blank.
  etransitivity; [apply fold_step_weight|]. cbn. lia.
Qed.

(** ** A section without a following header *)

Lemma section_parser_to_end (k : qtype) (lines : list str) (start : nat) :
  start <= length lines ->
  (forall m, start <= m < length lines ->
             matches_ic (terminators k) (strip (line_at lines m)) = false) ->
  exists qs, section_parser k lines start = Some (qs, length lines).
Proof.
  intros Hs Hno.
  destruct (section_parser_spec lines k start)
    as (qs & r & E & L1 & L2 & _ & Hstop).
  exists qs. rewrite E. do 2 f_equal.
  destruct (Nat.lt_ge_cases r (length lines)) as [Hr|Hr]; [|specialize (L2 Hs); lia].
  unfold stopped_at in Hstop. rewrite Hno in Hstop by lia.
  discriminate (Hstop Hr).
Qed.

(** X. A section parser stops only at the header of another kind: when no
    line from the start index on is such a header (headers of the
    section's own kind included in what is allowed), it consumes all the
    lines and returns the number of lines as resume index. *)
Theorem section_runs_to_end (k : qtype) (lines : list str) (start : nat) :
  start <= length lines ->
  (forall m, start <= m < length lines ->
             matches_ic (terminators k) (strip (line_at lines m)) = false) ->
  exists qs, section_parser k lines start = Some (qs, length lines).
Proof.
  intros Hs Hno. now apply section_parser_to_end.
Qed.

Lemma section_runs_to_end_witness :
  exists qs,
    section_parser true_false
      [lit "1. A"; lit "True or False (continued)"; lit "2. B"] 0
    = Some (qs, 3).
Proof.
  apply (section_runs_to_end true_false
           [lit "1. A"; lit "True or False (continued)"; lit "2. B"] 0).
  - simpl. lia.
  - intros m Hm. destruct m as [|[|[|m]]]; try reflexivity.
    simpl in Hm. lia.
Defined.

(** X. In a document made of one header and lines none of which is the
    header of another kind, every question gets the type of that header,
    and the questions are those of the section parser run to the end. *)
Theorem one_kind_document (h : str) (body : list str) (k : qtype) :
  header_kind (strip h) = Some k ->
  Forall (fun l => matches_ic (terminators k) (strip l) = false) body ->
  exists qs,
    parse_lines (h :: body) = Some qs
    /\ section_parser k body 0 = Some (qs, length body)
    /\ Forall (fun q => type q = k) qs.
Proof.
  intros Hk Hb.
  destruct (section_parser_to_end k body 0) as [qs E]; [lia| |].
  { intros m Hm. rewrite Forall_forall in Hb. apply Hb.
    apply nth_In. lia. }
  exists qs. split; [|split; [exact E|]].
  - rewrite (@parse_lines_headed h body k Hk), E.
    rewrite dispatch_loop_unfold, Nat.ltb_irrefl. reflexivity.
  - destruct (section_parser_spec body k 0) as (qs' & r & E' & _ & _ & F & _).
    rewrite E in E'. injection E' as <- <-.
    eapply Forall_impl; [|exact F].
    intros q Hq. exact (@emitted_type body k 0 (length body) q Hq).
Qed.

Lemma one_kind_document_witness :
  exists qs,
    parse_lines [lit "Long Answer Questions"; lit "1. Discuss.";
                 lit "long answer (part two)"; lit "a) not an option here"]
    = Some qs
    /\ section_parser long_answer
         [lit "1. Discuss."; lit "long answer (part two)";
          lit "a) not an option here"] 0
       = Some (qs, 3)
    /\ Forall (fun q => type q = long_answer) qs.
Proof.
  apply (one_kind_document (lit "Long Answer Questions")
           [lit "1. Discuss."; lit "long answer (part two)";
            lit "a) not an option here"] long_answer).
  - reflexivity.
  - repeat constructor.
Defined.

(** ** The body of a question or option line *)

Section Search.
Variable ic : bool.

(** [a+] tries every non-empty run of matching characters before it
    fails. *)
Lemma plus_match_none (R : Type) (a : atom) (k : str -> option R) :
  forall s, plus_match ic a s k = None ->
  forall pre rest, s = pre ++ rest -> pre <> [] ->
  forallb (atom_match ic a) pre = true -> k rest = None.
Proof.
  induction s as [|c s IH]; intros H pre rest E Hne Hall.
  - destruct pre; [congruence|discriminate].
  - destruct pre as [|c' pre]; [congruence|].
    injection E as <- E. simpl in Hall, H.
    apply andb_prop in Hall as [Hc Hall]. rewrite Hc in H.
    destruct (plus_match ic a s k) eqn:Hp; [discriminate|].
    destruct pre as [|c2 pre].
    + simpl in E. now subst.
    + apply (IH eq_refl (c2 :: pre) rest E); [discriminate|exact Hall].
Qed.

(** The run [a+] settles on is the longest one after which the rest of
    the pattern matches. *)
Lemma plus_match_sound_max (R : Type) (a : atom) (k : str -> option R) :
  forall s r, plus_match ic a s k = Some r ->
  exists pre rest, s = pre ++ rest /\ pre <> []
    /\ forallb (atom_match ic a) pre = true /\ k rest = Some r
    /\ plus_match ic a rest k = None.
Proof.
  induction s as [|c s IH]; simpl; intros r H; [discriminate|].
  destruct (atom_match ic a c) eqn:Hc; [|discriminate].
  destruct (plus_match ic a s k) as [r'|] eqn:Hp.
  - destruct (IH _ eq_refl) as (pre & rest & -> & _ & Hall & Hk & Hn).
    exists (c :: pre), rest. simpl. rewrite Hc, Hall.
    repeat split; congruence.
  - exists [c], s. simpl. rewrite Hc. repeat split; congruence.
Qed.

Lemma plus_dot_some (R : Type) (f : str -> R) (c : ascii) (s : str) :
  is_newline c = false ->
  plus_match ic Dot (c :: s) (fun s' => Some (f s')) <> None.
Proof.
  intro Hc. simpl. rewrite Hc. simpl.
  destruct (plus_match ic Dot s (fun s' => Some (f s'))); discriminate.
Qed.
End Search.

Lemma span_prefix (p : ascii -> bool) (s : str) :
  exists pre u, s = pre ++ u /\ forallb p pre = true
                /\ starts_with p u = false.
Proof.
  induction s as [|c s (pre & u & E & Hp & Hu)].
  - exists [], []. auto.
  - destruct (p c) eqn:Hc.
    + exists (c :: pre), u. simpl. rewrite Hc, Hp, E. auto.
    + exists [], (c :: s). simpl. auto.
Qed.

Lemma not_space_not_newline (c : ascii) :
  is_space c = false -> is_newline c = false.
Proof.
  intro H. pose proof (newline_is_space c) as N.
  destruct (is_newline c); [|reflexivity].
  simpl in N. congruence.
Qed.

Lemma not_delimiter_not_newline (c : ascii) :
  delimiter c = false -> is_newline c = false.
Proof.
  intro H. apply not_space_not_newline.
  pose proof (space_is_delimiter c) as N.
  destruct (is_space c); [|reflexivity].
  simpl in N. congruence.
Qed.

Lemma strip_ends_plain (s : str) : ends_plain (strip s).
Proof.
  intros init z E. unfold strip, rstrip in E.
  apply (f_equal (@rev ascii)) in E.
  rewrite rev_involutive, rev_app_distr in E. simpl in E.
  pose proof (lstrip_head (rev (lstrip s))) as H. now rewrite E in H.
Qed.

Lemma ends_plain_suffix (a b : str) :
  ends_plain (a ++ b) -> ends_plain b.
Proof.
  intros H init z E. apply (H (a ++ init) z).
  now rewrite E, app_assoc.
Qed.

Lemma nonempty_last (s : str) : s <> [] -> exists init z, s = init ++ [z].
Proof.
  intro H. destruct (exists_last H) as (init & z & E). eauto.
Qed.

(** The tail [[\.)\s]+(.+)] on a text that does not end in white space:
    the body does not start with white space, and when it starts with a
    delimiter it is that one character, the last of the text. *)
Lemma tail_body (ic : bool) (t : str) (cs0 cs : captures) :
  ends_plain t ->
  run ic (Cat delimiters (Group 2 (Plus Dot))) t cs0
      (fun _ c => Some c) = Some cs ->
  exists delims body rest,
    labelled t [] delims body rest /\ cs = (2, body) :: cs0
    /\ starts_with is_space body = false
    /\ (starts_with delimiter body = true ->
        exists c, body = [c] /\ rest = []).
Proof.
  intros Hend H. unfold delimiters in H. cbn [run] in H.
  apply plus_match_sound_max in H as (delims & s0 & -> & Hne & Hall & H & N).
  apply plus_match_greedy in H as (body & rest & -> & Hb & Hball & Hr & ->).
  assert (forallb delimiter delims = true) as Hd.
  { erewrite forallb_eq; [exact Hall|].
    intro c. symmetry. apply delimiter_any_case. }
  assert (match rest with [] => True | c :: _ => is_newline c = true end)
    as Hrest.
  { destruct rest as [|c rest]; [exact I|].
    simpl in Hr. now apply negb_false_iff in Hr. }
  assert (starts_with delimiter body = true ->
          exists c, body = [c] /\ rest = []) as Hsingle.
  { destruct body as [|c body']; [congruence|]. cbn [starts_with].
    intro Hc. exists c.
    assert (body' = []) as ->.
    { destruct body' as [|c2 body2]; [reflexivity|]. exfalso.
      simpl in Hball. apply andb_prop in Hball as [_ Hball].
      apply andb_prop in Hball as [Hc2 _].
      apply negb_true_iff in Hc2.
      refine (plus_dot_some ic _ _ c2 (body2 ++ rest) Hc2 _).
      apply (plus_match_none ic _ _ _ _ N [c] ((c2 :: body2) ++ rest));
        [reflexivity|discriminate|].
      cbn [forallb]. now rewrite delimiter_any_case, Hc. }
    split; [reflexivity|].
    destruct rest as [|n rest']; [reflexivity|]. exfalso.
    destruct (span_prefix delimiter ([c] ++ n :: rest'))
      as (D & u & E & HD & Hu).
    assert (D <> []) as HDne.
    { intro HD0. subst D. simpl in E. subst u. simpl in Hu. congruence. }
    assert (forallb (atom_match ic (Set_ [IChar "."; IChar ")"; ISpace])) D
            = true) as HD'.
    { erewrite forallb_eq; [exact HD|]. intro x. apply delimiter_any_case. }
    destruct u as [|x u'].
    - rewrite app_nil_r in E.
      destruct (nonempty_last D HDne) as (init & z & ->).
      assert (is_space z = false) as Hz.
      { apply (Hend (delims ++ init) z).
        rewrite <- app_assoc, <- E. reflexivity. }
      assert (init <> []) as Hi.
      { intro Hi. subst init. simpl in E. discriminate. }
      rewrite forallb_app in HD'. apply andb_prop in HD' as [HD' _].
      refine (plus_dot_some ic _ _ z [] (not_space_not_newline z Hz) _).
      exact (plus_match_none ic _ _ _ _ N init [z] E Hi HD').
    - simpl in Hu.
      refine (plus_dot_some ic _ _ x u' (not_delimiter_not_newline x Hu) _).
      exact (plus_match_none ic _ _ _ _ N D (x :: u') E HDne HD'). }
  exists delims, body, rest. split; [|split; [|split]].
  - unfold labelled. simpl. repeat split; auto.
  - now rewrite firstn_consumed.
  - destruct body as [|c body']; [reflexivity|]. cbn [starts_with].
    destruct (is_space c) eqn:Hc; [|reflexivity]. exfalso.
    pose proof (space_is_delimiter c) as Hdc. rewrite Hc in Hdc.
    simpl in Hdc. destruct (Hsingle Hdc) as (c' & E & ->).
    injection E as <- ->.
    rewrite (Hend delims c) in Hc; [discriminate|].
    now rewrite app_nil_r.
  - exact Hsingle.
Qed.

Lemma strip_head (s s' : str) (c : ascii) :
  s = c :: s' -> is_space c = false -> exists r, strip s = c :: r.
Proof.
  intros E Hc. unfold strip.
  rewrite (lstrip_fixed s) by (subst s; exact Hc).
  destruct (rstrip_split s) as [w [Ew Hw]].
  destruct (rstrip s) as [|c' r].
  - simpl in Ew. subst w. rewrite E in Hw. simpl in Hw.
    rewrite Hc in Hw. discriminate.
  - rewrite E in Ew. injection Ew as <- _. now exists r.
Qed.

Lemma strip_single (c : ascii) : is_space c = false -> strip [c] = [c].
Proof.
  intro Hc. destruct (strip_head [c] [] c eq_refl Hc) as [r E].
  unfold strip in *. rewrite (lstrip_fixed [c]) in * by exact Hc.
  destruct (rstrip_split [c]) as [w [Ew _]]. rewrite E in Ew.
  injection Ew as Ew. destruct r; [now rewrite E|discriminate].
Qed.

Lemma forallb_strip (p : ascii -> bool) (s : str) :
  forallb p s = true -> forallb p (strip s) = true.
Proof.
  intro H. unfold strip.
  destruct (lstrip_split s) as [w [E _]].
  destruct (rstrip_split (lstrip s)) as [w' [E' _]].
  rewrite E, forallb_app in H. apply andb_prop in H as [_ H].
  rewrite E', forallb_app in H. now apply andb_prop in H as [H _].
Qed.

(** [a+] gives back its last character when nothing else lets the rest
    of the pattern match. *)
Lemma plus_match_backoff (ic : bool) (R : Type) (a : atom)
      (k : str -> option R) (c : ascii) (r : R) :
  atom_match ic a c = true -> k [] = None -> k [c] = Some r ->
  forall pre, pre <> [] -> forallb (atom_match ic a) pre = true ->
  plus_match ic a (pre ++ [c]) k = Some r.
Proof.
  intros Hc K0 K1. induction pre as [|x pre IH]; intros Hne Hall;
    [congruence|].
  simpl in *. apply andb_prop in Hall as [Hx Hall]. rewrite Hx.
  destruct pre as [|y pre'].
  - simpl. now rewrite Hc, K0, K1.
  - rewrite IH; [reflexivity|discriminate|exact Hall].
Qed.

(** The tail matched again after reformatting with [". "]. *)
Lemma tail_reread (ic : bool) (body : str) (cs0 : captures) :
  body <> [] -> forallb no_newline body = true ->
  (starts_with delimiter body = true -> exists c, body = [c]) ->
  run ic (Cat delimiters (Group 2 (Plus Dot))) (lit ". " ++ body) cs0
      (fun _ c => Some c) = Some ((2, body) :: cs0).
Proof.
  intros Hne Hnl Hsingle.
  destruct (starts_with delimiter body) eqn:Hd.
  - destruct (Hsingle eq_refl) as [c ->]. simpl in Hd, Hnl.
    rewrite andb_true_r in Hnl. apply negb_true_iff in Hnl.
    unfold delimiters. cbn [run].
    apply plus_match_backoff.
    + now rewrite delimiter_any_case.
    + reflexivity.
    + simpl. now rewrite Hnl.
    + discriminate.
    + erewrite forallb_eq; [|intro x; apply delimiter_any_case].
      reflexivity.
  - apply tail_complete; try reflexivity; try discriminate; auto.
    destruct body; [congruence|exact Hd].
Qed.

Lemma question_reread (line num g2 : str) :
  question_match (strip line) = Some (num, g2) ->
  starts_with is_space g2 = false
  /\ strip g2 <> [] /\ forallb no_newline (strip g2) = true
  /\ question_match (dot_join num (strip g2)) = Some (num, strip g2).
Proof.
  pose proof (strip_ends_plain line) as Hend.
  remember (strip line) as L eqn:HL. clear HL.
  unfold question_match, match_, question_re. cbn [run].
  destruct (plus_match _ _ _ _) as [cs|] eqn:H; [|discriminate].
  simpl. intro E.
  apply plus_match_sound in H as (pre & s1 & -> & Hne & Hall & H).
  change (run false (Cat delimiters (Group 2 (Plus Dot))) s1
            [(1, firstn (length (pre ++ s1) - length s1) (pre ++ s1))]
            (fun _ c => Some c) = Some cs) in H.
  apply tail_body in H
    as (delims & body & rest & L & -> & Hsp & Hsingle);
    [|exact (ends_plain_suffix pre s1 Hend)].
  rewrite firstn_consumed in E. simpl in E. injection E as <- <-.
  destruct L as (_ & Hdne & Hd & Hbne & Hbnl & _).
  destruct body as [|c body']; [congruence|]. cbn [starts_with] in Hsp.
  destruct (strip_head (c :: body') body' c eq_refl Hsp) as [r Er].
  pose proof (forallb_strip no_newline _ Hbnl) as Hnl.
  split; [exact Hsp|].
  split; [rewrite Er; discriminate|]. split; [exact Hnl|].
  assert (starts_with delimiter (strip (c :: body')) = true ->
          exists x, strip (c :: body') = [x]) as Hs.
  { rewrite Er. cbn [starts_with]. intro Hc.
    destruct (Hsingle Hc) as (x & Ex & _). injection Ex as <- ->.
    exists c. rewrite <- Er. now apply strip_single. }
  unfold question_match, match_, question_re, dot_join. cbn [run].
  rewrite (@plus_match_longest false _ Digit _ pre
             (lit ". " ++ strip (c :: body'))
             [(2, strip (c :: body')); (1, pre)]); auto.
  { reflexivity. }
  rewrite firstn_consumed.
  apply (tail_reread false (strip (c :: body')) [(1, pre)]); auto.
  rewrite Er. discriminate.
Qed.

Lemma option_reread_text (c0 : ascii) (body : str) :
  option_label c0 = true ->
  body <> [] -> forallb no_newline body = true ->
  (starts_with delimiter body = true -> exists c, body = [c]) ->
  option_match (c0 :: lit ". " ++ body) = Some ([c0], body).
Proof.
  intros Hc0 Hne Hnl Hs.
  unfold option_match, match_, option_re. cbn [run].
  fold (option_label c0). rewrite Hc0.
  change (c0 :: lit ". " ++ body) with ([c0] ++ (lit ". " ++ body)).
  rewrite firstn_consumed.
  change (groups12
            (run true (Cat delimiters (Group 2 (Plus Dot)))
                 (lit ". " ++ body) [(1, [c0])] (fun _ c => Some c))
          = Some ([c0], body)).
  now rewrite (tail_reread true body [(1, [c0])]).
Qed.

Lemma option_reread (line lab g2 : str) :
  option_match (strip line) = Some (lab, g2) ->
  starts_with is_space g2 = false
  /\ strip g2 <> [] /\ forallb no_newline (strip g2) = true
  /\ option_match (dot_join lab (strip g2)) = Some (lab, strip g2).
Proof.
  pose proof (strip_ends_plain line) as Hend.
  remember (strip line) as L eqn:HL. clear HL.
  unfold option_match, match_, option_re. cbn [run].
  destruct L as [|c0 s1]; [discriminate|].
  fold (option_label c0). destruct (option_label c0) eqn:Hc0; [|discriminate].
  match goal with
  | |- groups12 ?m = _ -> _ => destruct m as [cs|] eqn:H; [|discriminate]
  end.
  simpl. intro E.
  change (run true (Cat delimiters (Group 2 (Plus Dot))) s1
            [(1, firstn (length (c0 :: s1) - length s1) (c0 :: s1))]
            (fun _ c => Some c) = Some cs) in H.
  apply tail_body in H
    as (delims & body & rest & L & -> & Hsp & Hsingle);
    [|exact (ends_plain_suffix [c0] s1 Hend)].
  change (c0 :: s1) with ([c0] ++ s1) in E.
  rewrite firstn_consumed in E. simpl in E. injection E as <- <-.
  destruct L as (_ & Hdne & Hd & Hbne & Hbnl & _).
  destruct body as [|c body']; [congruence|]. cbn [starts_with] in Hsp.
  destruct (strip_head (c :: body') body' c eq_refl Hsp) as [r Er].
  pose proof (forallb_strip no_newline _ Hbnl) as Hnl.
  split; [exact Hsp|].
  split; [rewrite Er; discriminate|]. split; [exact Hnl|].
  assert (starts_with delimiter (strip (c :: body')) = true ->
          exists x, strip (c :: body') = [x]) as Hs.
  { rewrite Er. cbn [starts_with]. intro Hc.
    destruct (Hsingle Hc) as (x & Ex & _). injection Ex as <- ->.
    exists c. rewrite <- Er. now apply strip_single. }
  change (dot_join [c0] (strip (c :: body')))
    with (c0 :: lit ". " ++ strip (c :: body')).
  apply option_reread_text; auto.
  rewrite Er. discriminate.
Qed.

Lemma emitted_stable lines k lo hi q :
  emitted lines k lo hi q -> stable_question q.
Proof.
  intros (j & g & _ & Hm & Ht & _ & _ & _ & Ho).
  destruct (question_reread _ _ _ Hm) as (_ & Hne & Hnl & Hre).
  exists (strip g). rewrite Ht.
  split; [exact Hne|]. split; [apply strip_idempotent|].
  split; [exact Hnl|]. split; [reflexivity|]. split; [exact Hre|].
  eapply Forall_impl; [|exact Ho].
  intros o (j' & g' & _ & Hm' & Ht').
  destruct (option_reread _ _ _ Hm') as (_ & Hne' & Hnl' & Hre').
  exists (strip g'). rewrite Ht'.
  split; [exact Hne'|]. split; [apply strip_idempotent|].
  split; [exact Hnl'|]. split; [reflexivity|exact Hre'].
Qed.

(** X. The text of every question (and of every option) a section parser
    returns is its number (label), [". "] and a body that is never empty,
    has no white space around it and no line feed; read again as a
    question (option) line, that text gives back the same number (label)
    and the same body. *)
Theorem formatting_is_stable :
  (forall k lines start,
     exists qs r, section_parser k lines start = Some (qs, r)
                  /\ Forall stable_question qs)
  /\ (forall text,
        exists qs, parse_questionnaire text = Some qs
                   /\ Forall stable_question qs).
Proof.
  split.
  - intros k lines start.
    destruct (section_parser_spec lines k start)
      as (qs & r & E & _ & _ & F & _).
    exists qs, r. split; [exact E|].
    eapply Forall_impl; [|exact F].
    intros q Hq. exact (emitted_stable _ _ _ _ _ Hq).
  - intro text. unfold parse_questionnaire.
    destruct (parse_lines_scan (normalize_lines text)) as (tr & Hs & E).
    exists (gathered tr). split; [exact E|].
    apply gathered_Forall.
    apply scan_ordered in Hs as [_ F].
    eapply Forall_impl; [|exact F].
    intros s Hq. eapply Forall_impl; [|exact Hq].
    intros q Hq'. exact (emitted_stable _ _ _ _ _ Hq').
Qed.

(** ** The lines [parse_questionnaire] works on *)

Lemma split_lines_no_newline (s : str) :
  Forall (fun l => forallb no_newline l = true) (split_lines s).
Proof.
  induction s as [|c s IH]; simpl; [repeat constructor|].
  destruct (is_newline c) eqn:Hc; [now constructor|].
  destruct (split_lines s) as [|l ls]; inversion IH; subst;
    constructor; auto; simpl; unfold no_newline at 1; now rewrite Hc.
Qed.

Lemma normalize_lines_trimmed (text : str) :
  Forall (fun l => strip l = l /\ forallb no_newline l = true)
         (normalize_lines text).
Proof.
  unfold normalize_lines. apply Forall_map.
  eapply Forall_impl; [|apply split_lines_no_newline].
  intros l Hl. split; [apply strip_idempotent|now apply forallb_strip].
Qed.

(** X. The normalized sequence is never empty, and each of its lines has
    no white space around it and no line feed in it: the [.strip()] calls
    of the loops change none of them. *)
Theorem normalized_lines_shape (text : str) :
  normalize_lines text <> []
  /\ Forall (fun l => strip l = l /\ forallb no_newline l = true)
            (normalize_lines text).
Proof.
  split; [|apply normalize_lines_trimmed].
  unfold normalize_lines.
  pose proof (split_lines_nonempty (collapse_newlines text)) as H.
  destruct (split_lines (collapse_newlines text)); [congruence|discriminate].
Qed.

Lemma strip_fixed (s : str) :
  starts_with is_space s = false -> ends_plain s -> strip s = s.
Proof.
  intros Hh He. unfold strip. rewrite (lstrip_fixed s Hh).
  destruct (rstrip_split s) as [w [E Hw]].
  destruct (list_eq_dec ascii_dec w []) as [->|Hne].
  - now rewrite app_nil_r in E.
  - exfalso. destruct (nonempty_last w Hne) as (init & z & ->).
    rewrite forallb_app in Hw. apply andb_prop in Hw as [_ Hz].
    simpl in Hz. rewrite andb_true_r in Hz.
    rewrite (He (rstrip s ++ init) z) in Hz; [discriminate|].
    now rewrite <- app_assoc.
Qed.





(** ** [extract_text_from_pdf] *)

Lemma attempt_some (m : option str) (t : str) :
  attempt m = Some t ->
  exists raw, m = Some raw /\ t = strip raw /\ 100 < length t.
Proof.
  unfold attempt. destruct m as [raw|]; [|discriminate].
  cbv zeta. destruct (substantial (strip raw)) eqn:Hs; [|discriminate].
  intro E. injection E as <-. exists raw. repeat split.
  unfold substantial in Hs. apply andb_prop in Hs as [_ Hs].
  now apply Nat.ltb_lt in Hs.
Qed.

(** X. [extract_text_from_pdf] never returns an empty text: it returns
    the trimmed text of a back end, which is then longer than 100
    characters and comes from the first back end whenever that one
    qualifies, or else the failure sentence; a back end that raises or
    yields 100 characters or fewer is passed over. *)
Theorem extract_text_result (pymupdf pdfplumber : option str) :
  let text := extract_text_from_pdf pymupdf pdfplumber in
  blank text = false
  /\ (text = EXTRACTION_FAILED
      \/ (100 < length text /\ strip text = text
          /\ exists raw, (pymupdf = Some raw \/ pdfplumber = Some raw)
                         /\ text = strip raw))
  /\ (forall raw, pymupdf = Some raw -> 100 < length (strip raw) ->
                  text = strip raw)
  /\ (text = EXTRACTION_FAILED <->
      attempt pymupdf = None /\ attempt pdfplumber = None).
Proof.
  cbv zeta.
  assert (forall t, 100 < length t -> blank t = false) as Hb
    by (intros [|c t] H; [simpl in H; lia|reflexivity]).
  assert (forall t, 100 < length t -> t <> EXTRACTION_FAILED) as Hneq.
  { intros t H E. subst t. vm_compute in H. lia. }
  unfold extract_text_from_pdf.
  destruct (attempt pymupdf) as [t1|] eqn:A1.
  - destruct (attempt_some _ _ A1) as (raw & -> & -> & Hlen).
    split; [now apply Hb|]. split; [|split].
    + right. split; [exact Hlen|]. split; [apply strip_idempotent|].
      exists raw. auto.
    + intros raw' E _. now injection E as <-.
    + split; [intro E; now apply Hneq in Hlen|intros [E _]; discriminate].
  - assert (forall raw, pymupdf = Some raw -> 100 < length (strip raw) ->
                        False) as Hno.
    { intros raw -> H. unfold attempt, substantial in A1.
      rewrite (Hb _ H) in A1. apply Nat.ltb_lt in H. rewrite H in A1.
      discriminate. }
    destruct (attempt pdfplumber) as [t2|] eqn:A2.
    + destruct (attempt_some _ _ A2) as (raw & -> & -> & Hlen).
      split; [now apply Hb|]. split; [|split].
      * right. split; [exact Hlen|]. split; [apply strip_idempotent|].
        exists raw. auto.
      * intros raw' E H. destruct (Hno raw' E H).
      * split; [intro E; now apply Hneq in Hlen|intros [_ E]; discriminate].
    + split; [reflexivity|]. split; [now left|]. split.
      * intros raw' E H. destruct (Hno raw' E H).
      * split; auto.
Qed.

Lemma extract_text_result_witness :
  extract_text_from_pdf (Some (lit "  " ++ repeat "q"%char 150))
                        (Some (repeat "z"%char 150))
  = strip (lit "  " ++ repeat "q"%char 150).
Proof.
  apply (proj1 (proj2 (proj2
           (extract_text_result (Some (lit "  " ++ repeat "q"%char 150))
                                (Some (repeat "z"%char 150)))))).
  - reflexivity.
  - apply Nat.ltb_lt. reflexivity.
Defined.

(** ** [create_structured_pdf] *)

Lemma paragraphs_of_app (sty : style) (a b : list flowable) :
  paragraphs_of sty (a ++ b) = paragraphs_of sty a ++ paragraphs_of sty b.
Proof. apply flat_map_app. Qed.

Lemma paragraphs_of_blocks (sty : style)
      (flowables : question -> list flowable)
      (f : question -> list str) (qs : list question) :
  (forall q, paragraphs_of sty (flowables q) = f q) ->
  paragraphs_of sty (flat_map flowables qs) = flat_map f qs.
Proof.
  intro H. induction qs as [|q qs IH]; [reflexivity|].
  simpl. now rewrite paragraphs_of_app, H, IH.
Qed.

Lemma paragraphs_of_options (sty : style) (opts : list option_entry) :
  paragraphs_of sty (map (fun o => Paragraph (option_text o) Normal) opts)
  = if style_eqb Normal sty then map option_text opts else [].
Proof.
  destruct sty; induction opts as [|o opts IH]; simpl in *; congruence.
Qed.

Lemma flat_map_singleton (A B : Type) (f : A -> B) (l : list A) :
  flat_map (fun x => [f x]) l = map f l.
Proof. induction l as [|x l IH]; simpl; [reflexivity|now rewrite IH]. Qed.

Lemma flat_map_nil (A B : Type) (l : list A) :
  flat_map (fun _ : A => @nil B) l = [].
Proof. induction l as [|x l IH]; simpl; auto. Qed.

Lemma section_flowables_paragraphs (sty : style) (title : string)
      (flowables : question -> list flowable) (f : question -> list str)
      (grp : list question) :
  (forall q, paragraphs_of sty (flowables q) = f q) ->
  paragraphs_of sty (section_flowables title flowables grp)
  = (if style_eqb Heading1 sty
     then match grp with [] => [] | _ :: _ => [lit title] end
     else [])
    ++ flat_map f grp.
Proof.
  intro H. destruct grp as [|q grp].
  - now destruct sty.
  - unfold section_flowables. rewrite paragraphs_of_app.
    rewrite (paragraphs_of_blocks sty flowables f _ H).
    now destruct sty.
Qed.

Lemma of_type_permutation (qs : list question) :
  Permutation (grouped qs) qs.
Proof.
  unfold grouped, of_type.
  induction qs as [|q qs IH]; [constructor|].
  simpl. destruct (type q); simpl.
  - now constructor.
  - apply Permutation_sym.
    apply Permutation_cons_app.
    now apply Permutation_sym.
  - apply Permutation_sym.
    rewrite app_assoc.
    apply Permutation_cons_app.
    rewrite <- app_assoc. now apply Permutation_sym.
  - apply Permutation_sym.
    rewrite !app_assoc.
    apply Permutation_cons_app.
    rewrite <- !app_assoc. now apply Permutation_sym.
Qed.

(** The appends of the source, one [Paragraph] at a time: they reach the
    end exactly when every text is accepted, and then the list is the one
    the calls spell out. *)
Section Rendered.
Variable accepts_markup : str -> bool.

Lemma append_options_spec (opts : list option_entry) :
  forall content,
  append_options accepts_markup opts content
  = if forallb accepts_markup (map option_text opts)
    then Some (content
               ++ map (fun opt => Paragraph (option_text opt) Normal) opts)
    else None.
Proof.
  induction opts as [|o opts IH]; intro content;
    cbn [append_options map forallb].
  - now rewrite app_nil_r.
  - unfold new_paragraph.
    destruct (accepts_markup (option_text o)); cbn [andb]; [|reflexivity].
    rewrite IH. rewrite <- app_assoc. reflexivity.
Qed.

Lemma mcq_block_spec (q : question) (content : list flowable) :
  mcq_block accepts_markup q content
  = if forallb accepts_markup (mcq_texts q)
    then Some (content ++ mcq_flowables q) else None.
Proof.
  unfold mcq_block, new_paragraph, mcq_texts, mcq_flowables.
  cbn [forallb].
  destruct (accepts_markup (text q)); cbn [andb]; [|reflexivity].
  rewrite append_options_spec.
  destruct (forallb accepts_markup (map option_text (options q)));
    [|reflexivity].
  rewrite <- !app_assoc. reflexivity.
Qed.

Lemma plain_block_spec (q : question) (content : list flowable) :
  plain_block accepts_markup q content
  = if forallb accepts_markup (plain_texts q)
    then Some (content ++ plain_flowables q) else None.
Proof.
  unfold plain_block, new_paragraph, plain_texts, plain_flowables.
  cbn [forallb].
  now destruct (accepts_markup (text q)).
Qed.

Lemma append_blocks_spec
      (block : question -> list flowable -> option (list flowable))
      (texts : question -> list str)
      (flowables : question -> list flowable) :
  (forall q content,
     block q content
     = if forallb accepts_markup (texts q)
       then Some (content ++ flowables q) else None) ->
  forall grp content,
  append_blocks block grp content
  = if forallb accepts_markup (flat_map texts grp)
    then Some (content ++ flat_map flowables grp) else None.
Proof.
  intros H grp. induction grp as [|q grp IH]; intro content;
    cbn [append_blocks flat_map].
  - cbn [forallb]. now rewrite app_nil_r.
  - rewrite H, forallb_app.
    destruct (forallb accepts_markup (texts q)); cbn [andb]; [|reflexivity].
    rewrite IH.
    destruct (forallb accepts_markup (flat_map texts grp)); [|reflexivity].
    now rewrite <- app_assoc.
Qed.

Lemma section_block_spec (title : string)
      (block : question -> list flowable -> option (list flowable))
      (texts : question -> list str)
      (flowables : question -> list flowable) :
  (forall q content,
     block q content
     = if forallb accepts_markup (texts q)
       then Some (content ++ flowables q) else None) ->
  forall grp content,
  section_block accepts_markup title block grp content
  = if forallb accepts_markup (group_texts title texts grp)
    then Some (content ++ section_flowables title flowables grp)
    else None.
Proof.
  intros H grp content. destruct grp as [|q grp].
  - cbn [section_block group_texts section_flowables forallb].
    now rewrite app_nil_r.
  - unfold section_block, group_texts, section_flowables, new_paragraph.
    cbn [forallb].
    destruct (accepts_markup (lit title)); cbn [andb]; [|reflexivity].
    rewrite (append_blocks_spec block texts flowables H).
    destruct (forallb accepts_markup (flat_map texts (q :: grp)));
      [|reflexivity].
    now rewrite <- app_assoc.
Qed.

Lemma create_structured_pdf_spec (questions : list question) :
  create_structured_pdf accepts_markup questions
  = if forallb accepts_markup (document_texts questions)
    then Some (planned_content questions) else None.
Proof.
  unfold create_structured_pdf, document_texts, planned_content,
    new_paragraph.
  cbn [forallb].
  destruct (accepts_markup (lit "Questionnaire")); cbn [andb];
    [|reflexivity].
  rewrite !forallb_app.
  rewrite (section_block_spec _ _ mcq_texts mcq_flowables mcq_block_spec).
  destruct (forallb accepts_markup (group_texts _ mcq_texts _));
    cbn [andb]; [|reflexivity].
  rewrite (section_block_spec _ _ plain_texts plain_flowables
             plain_block_spec).
  destruct (forallb accepts_markup
              (group_texts _ plain_texts (of_type true_false questions)));
    cbn [andb]; [|reflexivity].
  rewrite (section_block_spec _ _ plain_texts plain_flowables
             plain_block_spec).
  destruct (forallb accepts_markup
              (group_texts _ plain_texts (of_type short_answer questions)));
    cbn [andb]; [|reflexivity].
  rewrite (section_block_spec _ _ plain_texts plain_flowables
             plain_block_spec).
  destruct (forallb accepts_markup
              (group_texts _ plain_texts (of_type long_answer questions)));
    [|reflexivity].
  rewrite <- !app_assoc. reflexivity.
Qed.

End Rendered.

Lemma planned_subheadings (questions : list question) :
  paragraphs_of Heading2 (planned_content questions)
  = map text (grouped questions).
Proof.
  unfold planned_content, grouped.
  rewrite !paragraphs_of_app.
  rewrite (section_flowables_paragraphs Heading2 _ mcq_flowables
             (fun q => [text q])).
  2: { intro q. unfold mcq_flowables.
       rewrite !paragraphs_of_app, paragraphs_of_options. reflexivity. }
  rewrite !(section_flowables_paragraphs Heading2 _ plain_flowables
              (fun q => [text q])) by reflexivity.
  rewrite !flat_map_singleton, !map_app. reflexivity.
Qed.

Lemma planned_headings (questions : list question) :
  paragraphs_of Heading1 (planned_content questions)
  = flat_map (fun k => if existsb (fun q => qtype_eqb (type q) k) questions
                       then [heading k] else [])
             [mcq; true_false; short_answer; long_answer].
Proof.
  assert (forall k title,
    match of_type k questions with [] => [] | _ :: _ => [lit title] end
    = if existsb (fun q => qtype_eqb (type q) k) questions
      then [lit title] else []) as H.
  { intros k title. unfold of_type.
    induction questions as [|q qs IH]; [reflexivity|].
    simpl. destruct (qtype_eqb (type q) k); [reflexivity|exact IH]. }
  unfold planned_content.
  rewrite !paragraphs_of_app.
  rewrite (section_flowables_paragraphs Heading1 _ mcq_flowables
             (fun _ => [])).
  2: { intro q. unfold mcq_flowables.
       rewrite !paragraphs_of_app, paragraphs_of_options. reflexivity. }
  rewrite !(section_flowables_paragraphs Heading1 _ plain_flowables
              (fun _ => [])) by reflexivity.
  rewrite !flat_map_nil, !app_nil_r. cbn [style_eqb paragraphs_of flat_map].
  rewrite !H. cbn [app heading]. now rewrite app_nil_r.
Qed.

Lemma flat_map_options_of_type (qs : list question) :
  Forall options_within_bounds qs ->
  flat_map options (of_type mcq qs) = flat_map options qs.
Proof.
  unfold of_type.
  induction 1 as [|q qs Hq _ IH]; [reflexivity|].
  simpl. unfold options_within_bounds in Hq.
  destruct (type q); simpl; rewrite IH; try reflexivity;
    destruct (options q); try reflexivity; discriminate.
Qed.

Lemma planned_options (questions : list question) :
  Forall options_within_bounds questions ->
  paragraphs_of Normal (planned_content questions)
  = map option_text (flat_map options questions).
Proof.
  intro Hb. unfold planned_content.
  rewrite !paragraphs_of_app.
  rewrite (section_flowables_paragraphs Normal _ mcq_flowables
             (fun q => map option_text (options q))).
  2: { intro q. unfold mcq_flowables.
       rewrite !paragraphs_of_app, paragraphs_of_options.
       simpl. now rewrite app_nil_r. }
  rewrite !(section_flowables_paragraphs Normal _ plain_flowables
              (fun _ => [])) by reflexivity.
  rewrite !flat_map_nil, !app_nil_r.
  cbn [style_eqb paragraphs_of flat_map app].
  rewrite <- (flat_map_options_of_type questions Hb).
  generalize (of_type mcq questions). intro l.
  induction l as [|q l IH]; [reflexivity|].
  simpl. now rewrite map_app, IH.
Qed.

Lemma parsed_options_within_bounds (text_in : str) :
  exists qs, parse_questionnaire text_in = Some qs
             /\ Forall options_within_bounds qs.
Proof.
  unfold parse_questionnaire.
  destruct (parse_lines_scan (normalize_lines text_in)) as (tr & Hs & E).
  exists (gathered tr). split; [exact E|].
  apply gathered_Forall. apply scan_ordered in Hs as [_ F].
  eapply Forall_impl; [|exact F].
  intros s Hq. eapply Forall_impl; [|exact Hq].
  intros q Hq'. exact (emitted_options_within_bounds Hq').
Qed.

(** X. [create_structured_pdf] reaches [doc.build] exactly when
    [Paragraph] accepts every text it is given (the title, the headings
    of the groups that are not empty, the texts of the questions and of
    the options of the MCQ questions); when one is refused the exception
    ends the function and no document is written.  When it reaches
    [doc.build] the document shows every question exactly once: its
    sub-headings (style Heading2) are the texts of the MCQ questions, then
    of the true/false, short-answer and long-answer questions, each group
    in the order of the input, and that grouped list is a permutation of
    the input. *)
Theorem every_question_rendered_once
        (accepts_markup : str -> bool) (questions : list question) :
  Permutation (grouped questions) questions
  /\ (forallb accepts_markup (document_texts questions) = true ->
      exists content,
        create_structured_pdf accepts_markup questions = Some content
        /\ paragraphs_of Heading2 content = map text (grouped questions))
  /\ (forallb accepts_markup (document_texts questions) = false ->
      create_structured_pdf accepts_markup questions = None).
Proof.
  split; [apply of_type_permutation|].
  rewrite create_structured_pdf_spec.
  split; intros ->; [|reflexivity].
  exists (planned_content questions).
  split; [reflexivity|apply planned_subheadings].
Qed.

Lemma every_question_rendered_once_witness :
  (exists content,
     create_structured_pdf no_tag
       [make_question (lit "1") (lit "Sky is blue") true_false [];
        make_question (lit "1") (lit "Pick one") mcq
          [make_option (lit "a") (lit "x")]]
     = Some content
     /\ paragraphs_of Heading2 content
        = [lit "1. Pick one"; lit "1. Sky is blue"])
  /\ create_structured_pdf no_tag
       [make_question (lit "1") (lit "What does <b> mean?") short_answer []]
     = None.
Proof.
  split.
  - apply (proj1 (proj2 (every_question_rendered_once no_tag
       [make_question (lit "1") (lit "Sky is blue") true_false [];
        make_question (lit "1") (lit "Pick one") mcq
          [make_option (lit "a") (lit "x")]]))).
    reflexivity.
  - apply (proj2 (proj2 (every_question_rendered_once no_tag
       [make_question (lit "1") (lit "What does <b> mean?")
          short_answer []]))).
    reflexivity.
Defined.

(** X. When [create_structured_pdf] reaches [doc.build] (every text
    accepted by [Paragraph]), the section headings (style Heading1) of the
    document are those of the kinds that have at least one question, in
    the fixed order MCQ, true/false, short answer, long answer; a kind
    without question gets no heading.  When a text is refused there is no
    document. *)
Theorem headings_of_present_kinds
        (accepts_markup : str -> bool) (questions : list question) :
  (forallb accepts_markup (document_texts questions) = true ->
   exists content,
     create_structured_pdf accepts_markup questions = Some content
     /\ paragraphs_of Heading1 content
        = flat_map
            (fun k => if existsb (fun q => qtype_eqb (type q) k) questions
                      then [heading k] else [])
            [mcq; true_false; short_answer; long_answer])
  /\ (forallb accepts_markup (document_texts questions) = false ->
      create_structured_pdf accepts_markup questions = None).
Proof.
  rewrite create_structured_pdf_spec.
  split; intros ->; [|reflexivity].
  exists (planned_content questions).
  split; [reflexivity|apply planned_headings].
Qed.

Lemma headings_of_present_kinds_witness :
  (exists content,
     create_structured_pdf no_tag
       [make_question (lit "2") (lit "Explain") long_answer [];
        make_question (lit "1") (lit "Sky is blue") true_false []]
     = Some content
     /\ paragraphs_of Heading1 content
        = [lit "True or False:"; lit "Long Answer Questions:"])
  /\ create_structured_pdf no_tag
       [make_question (lit "2") (lit "Is a < b?") true_false []]
     = None.
Proof.
  split.
  - apply (proj1 (headings_of_present_kinds no_tag
       [make_question (lit "2") (lit "Explain") long_answer [];
        make_question (lit "1") (lit "Sky is blue") true_false []])).
    reflexivity.
  - apply (proj2 (headings_of_present_kinds no_tag
       [make_question (lit "2") (lit "Is a < b?") true_false []])).
    reflexivity.
Defined.

(** X. No option found by the parser is lost on the way to the document:
    when [create_structured_pdf] reaches [doc.build] on the questions
    [parse_questionnaire] returned (every text accepted by [Paragraph]),
    the body paragraphs (style Normal) of the document are the texts of
    all the options of all these questions, in order.  (The renderer only
    looks at the options of MCQ questions; the parser gives options to no
    other kind.)  When a text is refused there is no document. *)
Theorem every_parsed_option_rendered
        (accepts_markup : str -> bool) (text_in : str) :
  exists qs,
    parse_questionnaire text_in = Some qs
    /\ (forallb accepts_markup (document_texts qs) = true ->
        exists content,
          create_structured_pdf accepts_markup qs = Some content
          /\ paragraphs_of Normal content
             = map option_text (flat_map options qs))
    /\ (forallb accepts_markup (document_texts qs) = false ->
        create_structured_pdf accepts_markup qs = None).
Proof.
  destruct (parsed_options_within_bounds text_in) as (qs & E & Hb).
  exists qs. split; [exact E|].
  rewrite create_structured_pdf_spec.
  split; intros ->; [|reflexivity].
  exists (planned_content qs).
  split; [reflexivity|now apply planned_options].
Qed.

Lemma every_parsed_option_rendered_witness :
  (exists qs,
     parse_questionnaire
       (lit "Multiple Choice" ++ newline :: lit "1. Pick one"
            ++ newline :: lit "a) x" ++ newline :: lit "b) y") = Some qs
     /\ exists content,
          create_structured_pdf no_tag qs = Some content
          /\ paragraphs_of Normal content = [lit "a. x"; lit "b. y"])
  /\ (exists qs,
        parse_questionnaire
          (lit "Multiple Choice" ++ newline :: lit "1. What does <b> mean?"
               ++ newline :: lit "a) x") = Some qs
        /\ create_structured_pdf no_tag qs = None).
Proof.
  split.
  - destruct (every_parsed_option_rendered no_tag
       (lit "Multiple Choice" ++ newline :: lit "1. Pick one"
            ++ newline :: lit "a) x" ++ newline :: lit "b) y"))
      as (qs & E & Hok & _).
    exists qs. split; [exact E|].
    assert (qs = [make_question (lit "1") (lit "Pick one") mcq
                    [make_option (lit "a") (lit "x");
                     make_option (lit "b") (lit "y")]]) as Hq.
    { vm_compute in E. injection E as <-. reflexivity. }
    subst qs. destruct (Hok eq_refl) as (content & Ec & Ep).
    exists content. split; [exact Ec|]. rewrite Ep. reflexivity.
  - destruct (every_parsed_option_rendered no_tag
       (lit "Multiple Choice" ++ newline :: lit "1. What does <b> mean?"
            ++ newline :: lit "a) x"))
      as (qs & E & _ & Hno).
    exists qs. split; [exact E|].
    assert (qs = [make_question (lit "1") (lit "What does <b> mean?") mcq
                    [make_option (lit "a") (lit "x")]]) as Hq.
    { vm_compute in E. injection E as <-. reflexivity. }
    subst qs. apply Hno. reflexivity.
Defined.

(** ** [main] *)

(** X. The groups [main] builds for display, by appending each question
    to the list of its type, are the groups [create_structured_pdf]
    builds by filtering: for each kind, the questions of that kind in the
    order of the input. *)
Theorem question_types_are_groups (questions : list question) (k : qtype) :
  question_types questions k = of_type k questions.
Proof.
  unfold question_types, of_type.
  assert (forall qs (groups : qtype -> list question),
    fold_left
      (fun groups q k =>
         if qtype_eqb k (type q) then groups k ++ [q] else groups k)
      qs groups k
    = groups k ++ filter (fun q => qtype_eqb (type q) k) qs) as H.
  { induction qs as [|q qs IH]; intro groups; simpl.
    - now rewrite app_nil_r.
    - rewrite IH.
      replace (qtype_eqb (type q) k) with (qtype_eqb k (type q))
        by (destruct k, (type q); reflexivity).
      destruct (qtype_eqb k (type q)); [|reflexivity].
      now rewrite <- app_assoc. }
  apply H.
Qed.

(** * The spellings of the section headers *)

Lemma ends_plain_app (a b : str) :
  b <> [] -> ends_plain b -> ends_plain (a ++ b).
Proof.
  intros Hne Hb init z E.
  destruct (nonempty_last b Hne) as (init' & z' & ->).
  rewrite app_assoc in E. apply app_inj_tail in E as [_ ->].
  now apply (Hb init' z).
Qed.

Lemma space_lower : forall c,
  implb (is_space c) (is_space (lower c)) = true.
Proof. by_chars. Qed.

Lemma phrase_words_spec (k : qtype) : phrase k = words (phrase_words k).
Proof. now destruct k. Qed.

Lemma phrase_words_plain (k : qtype) :
  forallb plain_word (phrase_words k) = true.
Proof. now destruct k. Qed.

(** A word in another letter case is matched by the literals of the word
    under [re.IGNORECASE], and nothing more of the line is consumed. *)
Lemma run_lits (R : Type) (w : str) :
  forall v rest cs (k : str -> captures -> option R),
  spelled v w = true ->
  run true (lits w) (v ++ rest) cs k = k rest cs.
Proof.
  induction w as [|c w IH]; intros [|x v] rest cs k H;
    try discriminate; [reflexivity|].
  cbn [spelled] in H. apply andb_prop in H as [Hx Hv].
  cbn [lits run app atom_match]. unfold char_eq.
  rewrite Hx, orb_true_r. now apply IH.
Qed.

(** [a+] succeeds on a non-empty run of matching characters whenever the
    rest of the pattern succeeds after the run. *)
Lemma plus_match_some (R : Type) (ic : bool) (a : atom)
      (k : str -> option R) (rest : str) :
  forall pre,
  pre <> [] -> forallb (atom_match ic a) pre = true ->
  is_some (k rest) = true ->
  is_some (plus_match ic a (pre ++ rest) k) = true.
Proof.
  induction pre as [|c pre IH]; intros Hne Hall Hk; [congruence|].
  cbn [forallb] in Hall. apply andb_prop in Hall as [Hc Hall].
  cbn [app plus_match]. rewrite Hc.
  destruct pre as [|c' pre].
  - cbn [app]. destruct (plus_match ic a rest k); [reflexivity|exact Hk].
  - assert (is_some (plus_match ic a ((c' :: pre) ++ rest) k) = true) as H
      by (apply IH; [discriminate|exact Hall|exact Hk]).
    destruct (plus_match ic a ((c' :: pre) ++ rest) k);
      [reflexivity|discriminate].
Qed.

(** The pattern of the words matches every spelling of them, whatever
    follows on the line. *)
Lemma run_words (R : Type) (ws : list string) (line : str) :
  spelling ws line ->
  forall extra cs (k : str -> captures -> option R),
  (forall cs', is_some (k extra cs') = true) ->
  is_some (run true (words ws) (line ++ extra) cs k) = true.
Proof.
  induction 1 as [w v Hv|w w' ws v gap rest Hv Hne Hgap _ IH];
    intros extra cs k Hk.
  - cbn [words]. rewrite run_lits by exact Hv. apply Hk.
  - change (words (w :: w' :: ws))
      with (Cat (lits (lit w)) (Cat (Plus Space) (words (w' :: ws)))).
    cbn [run]. rewrite <- app_assoc.
    rewrite run_lits by exact Hv.
    rewrite <- app_assoc.
    apply plus_match_some; [exact Hne|exact Hgap|].
    now apply IH.
Qed.

Lemma spelling_header (k : qtype) (line extra : str) :
  spelling (phrase_words k) line ->
  header_kind (line ++ extra) = Some k.
Proof.
  intro H. apply header_kind_spec. rewrite phrase_words_spec.
  unfold matches_ic, match_.
  change (is_some (run true (words (phrase_words k)) (line ++ extra) []
                       (fun _ cs => Some cs)) = true).
  now apply run_words.
Qed.

Lemma spelled_plain (w : str) :
  forall v, spelled v w = true ->
  forallb (fun c => negb (is_space (lower c))) w = true ->
  forallb (fun x => negb (is_space x)) v = true.
Proof.
  induction w as [|c w IH]; intros [|x v] H Hw; try discriminate;
    [reflexivity|].
  cbn [spelled] in H. apply andb_prop in H as [Hx Hv].
  cbn [forallb] in *. apply andb_prop in Hw as [Hc Hw].
  rewrite (IH v Hv Hw), andb_true_r.
  apply Ascii.eqb_eq in Hx.
  pose proof (space_lower x) as S. rewrite Hx in S.
  destruct (is_space x); [|reflexivity].
  cbn [implb] in S. rewrite S in Hc. discriminate.
Qed.

Lemma plain_ends_plain (v : str) :
  forallb (fun x => negb (is_space x)) v = true -> ends_plain v.
Proof.
  intros H init z ->. rewrite forallb_app in H.
  apply andb_prop in H as [_ H]. cbn [forallb] in H.
  now destruct (is_space z).
Qed.

(** A spelling starts and ends with a letter of a word. *)
Lemma spelling_plain (ws : list string) (line : str) :
  spelling ws line ->
  forallb plain_word ws = true ->
  line <> [] /\ starts_with is_space line = false /\ ends_plain line.
Proof.
  assert (forall w v, spelled v (lit w) = true -> plain_word w = true ->
            v <> [] /\ starts_with is_space v = false
            /\ forallb (fun x => negb (is_space x)) v = true) as Hword.
  { intros w v Hv Hw. unfold plain_word in Hw.
    apply andb_prop in Hw as [Hne Hw].
    pose proof (spelled_plain _ _ Hv Hw) as Hp.
    destruct v as [|x v].
    - destruct (lit w); [discriminate Hne|discriminate Hv].
    - split; [discriminate|]. split; [|exact Hp].
      cbn [forallb] in Hp. apply andb_prop in Hp as [Hx _].
      cbn [starts_with]. now destruct (is_space x). }
  induction 1 as [w v Hv|w w' ws v gap rest Hv Hne Hgap Hrest IH];
    intro Hws; cbn [forallb] in Hws; apply andb_prop in Hws as [Hw Hws].
  - destruct (Hword w v Hv Hw) as (N & S & P).
    split; [exact N|]. split; [exact S|now apply plain_ends_plain].
  - destruct (Hword w v Hv Hw) as (N & S & _).
    destruct (IH Hws) as (N' & _ & E').
    destruct v as [|x v]; [congruence|].
    split; [discriminate|]. split; [exact S|].
    rewrite app_assoc. now apply ends_plain_app.
Qed.

(** The trimmed line starts with the spelling. *)
Lemma spelling_strip (k : qtype) (line lead extra : str) :
  spelling (phrase_words k) line ->
  forallb is_space lead = true ->
  header_kind (strip (lead ++ line ++ extra)) = Some k.
Proof.
  intros Hs Hl.
  destruct (spelling_plain _ _ Hs (phrase_words_plain k)) as (N & S & E).
  assert (strip (lead ++ line ++ extra) = strip (line ++ extra)) as ->.
  { unfold strip. now rewrite lstrip_app_spaces. }
  destruct (strip_app line extra) as [u Eu].
  { now rewrite (strip_fixed line S E). }
  rewrite Eu, (strip_fixed line S E). now apply spelling_header.
Qed.

Lemma parse_questionnaire_headed (h body : str) (k : qtype) :
  forallb no_newline h = true ->
  header_kind (strip h) = Some k ->
  parse_questionnaire (h ++ newline :: body)
  = do (qs, r) <- section_parser k (following_lines body) 0;
    dispatch_loop (S (length (following_lines body)))
                  (following_lines body) r qs.
Proof.
  intros Hn Hk. unfold parse_questionnaire.
  rewrite normalize_lines_headed by exact Hn.
  apply parse_lines_headed. now rewrite strip_idempotent.
Qed.

(** C5. The lines ["MULTIPLE CHOICE"], ["multiple choice"] and
    ["Multiple   Choice"] are all headers of the multiple-choice section:
    put in front of the same body, they make [parse_questionnaire] call
    [parse_mcq_section] on the lines of the body and give the same result.
    In general two first lines that are headers of the same kind give the
    same result on the same body, and a header followed by more text on
    its line is a header of the same kind.  For each of the four kinds,
    every line that spells the words of the header phrase, in any letter
    case and with any run of one or more white space characters between
    two words, is recognised as the header of that kind once the line is
    trimmed, also with white space before it and any text after it; put
    in front of a body it makes [parse_questionnaire] call the parser of
    that kind on the lines of the body. *)
Theorem header_matching_tolerant :
  (forall body,
     let parsed :=
       do (qs, r) <- parse_mcq_section (following_lines body) 0;
       dispatch_loop (S (length (following_lines body)))
                     (following_lines body) r qs in
     parse_questionnaire (lit "MULTIPLE CHOICE" ++ newline :: body) = parsed
     /\ parse_questionnaire (lit "multiple choice" ++ newline :: body)
        = parsed
     /\ parse_questionnaire (lit "Multiple   Choice" ++ newline :: body)
        = parsed)
  /\ (forall h1 h2 k body,
        forallb no_newline h1 = true -> forallb no_newline h2 = true ->
        header_kind (strip h1) = Some k -> header_kind (strip h2) = Some k ->
        parse_questionnaire (h1 ++ newline :: body)
        = parse_questionnaire (h2 ++ newline :: body))
  /\ (forall h extra k,
        header_kind (strip h) = Some k ->
        header_kind (strip (h ++ extra)) = Some k)
  /\ (forall k line lead extra,
        spelling (phrase_words k) line ->
        forallb is_space lead = true ->
        header_kind (strip (lead ++ line ++ extra)) = Some k)
  /\ (forall k line lead extra body,
        spelling (phrase_words k) line ->
        forallb is_space lead = true ->
        forallb no_newline (lead ++ line ++ extra) = true ->
        parse_questionnaire ((lead ++ line ++ extra) ++ newline :: body)
        = do (qs, r) <- section_parser k (following_lines body) 0;
          dispatch_loop (S (length (following_lines body)))
                        (following_lines body) r qs).
Proof.
  split; [|split; [|split; [|split]]].
  - intro body. cbv zeta.
    split; [|split].
    + apply (@parse_questionnaire_headed (lit "MULTIPLE CHOICE") body mcq);
        reflexivity.
    + apply (@parse_questionnaire_headed (lit "multiple choice") body mcq);
        reflexivity.
    + apply (@parse_questionnaire_headed (lit "Multiple   Choice") body mcq);
        reflexivity.
  - intros h1 h2 k body N1 N2 K1 K2.
    rewrite (@parse_questionnaire_headed h1 body k N1 K1).
    rewrite (@parse_questionnaire_headed h2 body k N2 K2). reflexivity.
  - intros h extra k Hk.
    destruct (@strip_app h extra) as [u E].
    { intro E. rewrite E in Hk. discriminate. }
    rewrite E. now apply header_kind_prefix.
  - intros k line lead extra Hs Hl. now apply spelling_strip.
  - intros k line lead extra body Hs Hl Hn.
    apply parse_questionnaire_headed; [exact Hn|].
    now apply spelling_strip.
Qed.

Lemma header_matching_tolerant_witness :
  parse_questionnaire
    (lit "MULTIPLE CHOICE" ++ newline :: lit "1. Pick" ++ newline :: lit "a) x")
  = parse_questionnaire
      (lit "  Multiple  Choice Questions (2 marks each):"
           ++ newline :: lit "1. Pick" ++ newline :: lit "a) x")
  /\ header_kind (strip (lit "  short     ANSWER questions"))
     = Some short_answer
  /\ parse_questionnaire
       (lit "  TRUE   or false statements:"
            ++ newline :: lit "1. Sky is blue")
     = Some [make_question (lit "1") (lit "Sky is blue") true_false []].
Proof.
  split; [|split].
  - apply (proj1 (proj2 header_matching_tolerant)
             (lit "MULTIPLE CHOICE")
             (lit "  Multiple  Choice Questions (2 marks each):") mcq);
      reflexivity.
  - apply (proj1 (proj2 (proj2 (proj2 header_matching_tolerant)))
             short_answer (lit "short     ANSWER") (lit "  ")
             (lit " questions")).
    + apply (@spelling_more "Short"%string "Answer"%string [] (lit "short") (lit "     ")
               (lit "ANSWER") eq_refl); [discriminate|reflexivity|].
      apply (@spelling_last _ _). reflexivity.
    + reflexivity.
  - etransitivity.
    + apply (proj2 (proj2 (proj2 (proj2 header_matching_tolerant)))
               true_false (lit "TRUE   or false") (lit "  ")
               (lit " statements:") (lit "1. Sky is blue")).
      * apply (@spelling_more "True"%string "or"%string ["False"%string] (lit "TRUE")
                 (lit "   ") (lit "or false") eq_refl);
          [discriminate|reflexivity|].
        apply (@spelling_more "or"%string "False"%string [] (lit "or") (lit " ")
                 (lit "false") eq_refl); [discriminate|reflexivity|].
        apply (@spelling_last _ _). reflexivity.
      * reflexivity.
      * reflexivity.
    + reflexivity.
Defined.
